(** * Shift-assignment tool: the business and persistence layers

    A shallow embedding of [business.js] and [persistence.js] (employees,
    shifts and assignments kept as JSON arrays on disk), with the JavaScript
    built-ins they call ([trim], [split], [Number], [String], [padStart],
    string comparison) modelled beside them, and the properties of the
    natural-language specification stated and proved over the embedding.

    Layout: the JavaScript values first ([JsString], [JsNumber]), then the
    records of the data model, the disk, the monad the asynchronous functions
    run in, [Persistence] and [Business]; the facts and the theorems follow
    the definitions. *)

From Stdlib Require Import ZArith NArith QArith Qround Qabs Lia Bool Btauto DecimalN.
From Stdlib Require Import Floats.
From Stdlib Require Import Strings.String Strings.Ascii.
From Stdlib Require Import Sorting.Permutation Sorting.Sorted.
From stdpp Require Import base numbers list.

#[local] Open Scope Z_scope.

(** ** JavaScript strings

    A JavaScript string is a finite sequence of UTF-16 code units.  A code
    unit is kept as a number of [N]; [trim], [split], [substring],
    [padStart] and the relational operators all work on code units, so
    nothing here depends on how the units pair up into characters. *)

Module JsString.

Definition jsstring : Type := list N.

(** The code units of a literal of the source text (all of them ASCII). *)
Definition lit (s : string) : jsstring :=
  map N_of_ascii (list_ascii_of_string s).

(** [WhiteSpace] and [LineTerminator] of ECMA-262: what [trim] strips and
    what [Number] skips around a numeric literal. *)
Definition isWhiteSpace (c : N) : bool :=
  existsb (N.eqb c)
    [9; 10; 11; 12; 13; 32; 160; 5760; 8232; 8233; 8239; 8287; 12288; 65279]%N
  || ((8192 <=? c)%N && (c <=? 8202)%N).

Fixpoint trimStart (s : jsstring) : jsstring :=
  match s with
  | c :: s' => if isWhiteSpace c then trimStart s' else s
  | [] => []
  end.

Definition trimEnd (s : jsstring) : jsstring := rev (trimStart (rev s)).

(** [s.trim()] *)
Definition trim (s : jsstring) : jsstring := trimEnd (trimStart s).

(** [s === ""] *)
Definition isEmpty (s : jsstring) : bool :=
  match s with [] => true | _ :: _ => false end.

(** [s === t] on two strings. *)
Definition eqb (s t : jsstring) : bool := bool_decide (s = t).

(** [s.substring(1)]: everything after the first code unit. *)
Definition substring1 (s : jsstring) : jsstring := drop 1 s.

(** [s.padStart(n, c)] for a one-unit filler [c]. *)
Definition padStart (n : nat) (c : N) (s : jsstring) : jsstring :=
  replicate (n - length s) c ++ s.

(** [s.split(sep)] for a one-unit separator: the pieces between the
    occurrences of [sep]; never the empty array. *)
Fixpoint split (sep : N) (s : jsstring) : list jsstring :=
  match s with
  | [] => [[]]
  | c :: s' =>
      if (c =? sep)%N then [] :: split sep s'
      else match split sep s' with
           | piece :: pieces => (c :: piece) :: pieces
           | [] => [[c]]
           end
  end.

(** The relational comparison of two strings (ECMA-262,
    IsLessThan on strings): lexicographic on code units, a proper prefix
    being smaller. *)
Fixpoint compare (s t : jsstring) : comparison :=
  match s, t with
  | [], [] => Eq
  | [], _ :: _ => Lt
  | _ :: _, [] => Gt
  | c :: s', d :: t' =>
      match (c ?= d)%N with
      | Eq => compare s' t'
      | o => o
      end
  end.

(** [s > t] *)
Definition gtb (s t : jsstring) : bool :=
  match compare s t with Gt => true | _ => false end.

(** [s <= t] as a proposition, for stating sortedness. *)
Definition le (s t : jsstring) : Prop := compare s t <> Gt.

End JsString.

Export JsString.
Arguments lit _%_string.

(** ** JavaScript numbers

    A Number is an IEEE 754 binary64 value.  A finite value is kept as the
    rational it denotes, in lowest terms; every arithmetic operation computes
    the exact result and rounds it to the nearest binary64 value, ties to
    even ([round64]).  The two zeros are not told apart: they are [===] in
    JavaScript, print alike, and the program never divides by a value it
    computed. *)

Module JsNumber.

Inductive jsnum : Type :=
| NaN
| Inf (negative : bool)
| Fin (q : Q).

Definition zero : jsnum := Fin 0.
Definition ofZ (z : Z) : jsnum := Fin (inject_Z z).

(** [z * 2 ^ e] for [e >= 0], and [z] itself otherwise: one side of a
    comparison or a division of two rationals scaled by a power of two. *)
Definition scale (z e : Z) : Z := z * 2 ^ Z.max e 0.

(** [floor (log2 (num / den))] *)
Definition floorLog2 (num den : positive) : Z :=
  let e0 := Z.log2 (Zpos num) - Z.log2 (Zpos den) in
  if scale (Zpos den) e0 <=? scale (Zpos num) (- e0) then e0 else e0 - 1.

(** Round the positive rational [num / den] to binary64.  [e] is the
    exponent of the last place kept: 53 significant bits for a normal value,
    and never below [-1074], the last place of the subnormal values.  The
    quotient [n] counts whole units of [2 ^ e]; the remainder decides the
    rounding, a tie going to the even neighbour.  A result of [2 ^ 1024] or
    more is an overflow. *)
Definition roundPos (num den : positive) : jsnum :=
  let e := Z.max (floorLog2 num den - 52) (-1074) in
  let a := scale (Zpos num) (- e) in
  let b := scale (Zpos den) e in
  let n := a / b in
  let r := a mod b in
  let n' := match 2 * r ?= b with
            | Lt => n
            | Gt => n + 1
            | Eq => if Z.even n then n else n + 1
            end in
  if e <? 0 then Fin (Qred (Qmake n' (Z.to_pos (2 ^ (- e)))))
  else if 2 ^ 1024 <=? n' * 2 ^ e then Inf false
  else Fin (inject_Z (n' * 2 ^ e)).

Definition neg (a : jsnum) : jsnum :=
  match a with
  | NaN => NaN
  | Inf s => Inf (negb s)
  | Fin q => Fin (Qred (- q))
  end.

(** The Number value for a rational: round to nearest, ties to even. *)
Definition round64 (q : Q) : jsnum :=
  match Qnum q with
  | Z0 => zero
  | Zpos num => roundPos num (Qden q)
  | Zneg num => neg (roundPos num (Qden q))
  end.

Definition isNaN (a : jsnum) : bool :=
  match a with NaN => true | _ => false end.

(** [a + b] *)
Definition add (a b : jsnum) : jsnum :=
  match a, b with
  | NaN, _ | _, NaN => NaN
  | Inf s, Inf t => if Bool.eqb s t then Inf s else NaN
  | Inf s, Fin _ | Fin _, Inf s => Inf s
  | Fin x, Fin y => round64 (x + y)
  end.

(** [a - b] *)
Definition sub (a b : jsnum) : jsnum := add a (neg b).

Definition isNegative (q : Q) : bool :=
  match Qnum q with Zneg _ => true | _ => false end.

Definition isZero (q : Q) : bool :=
  match Qnum q with Z0 => true | _ => false end.

(** [a * b] *)
Definition mul (a b : jsnum) : jsnum :=
  match a, b with
  | NaN, _ | _, NaN => NaN
  | Inf s, Inf t => Inf (xorb s t)
  | Inf s, Fin y | Fin y, Inf s =>
      if isZero y then NaN else Inf (xorb s (isNegative y))
  | Fin x, Fin y => round64 (x * y)
  end.

(** [a / b].  A zero divisor is taken as [+0]. *)
Definition div (a b : jsnum) : jsnum :=
  match a, b with
  | NaN, _ | _, NaN => NaN
  | Inf _, Inf _ => NaN
  | Inf s, Fin y => Inf (xorb s (isNegative y))
  | Fin _, Inf _ => zero
  | Fin x, Fin y =>
      if isZero y then (if isZero x then NaN else Inf (isNegative x))
      else round64 (x / y)
  end.

(** [a < b]: false as soon as one side is [NaN]. *)
Definition ltb (a b : jsnum) : bool :=
  match a, b with
  | NaN, _ | _, NaN => false
  | Inf s, Inf t => s && negb t
  | Inf s, Fin _ => s
  | Fin _, Inf t => negb t
  | Fin x, Fin y => match (x ?= y)%Q with Lt => true | _ => false end
  end.

(** [a > b] *)
Definition gtb (a b : jsnum) : bool := ltb b a.

(** *** [Number(s)] on a string: StringToNumber of ECMA-262 *)

Definition isDigit (c : N) : bool := ((48 <=? c) && (c <=? 57))%N.

(** The value of a hexadecimal digit, or [None]. *)
Definition hexDigit (c : N) : option Z :=
  if isDigit c then Some (Z.of_N c - 48)
  else if ((97 <=? c) && (c <=? 102))%N then Some (Z.of_N c - 87)
  else if ((65 <=? c) && (c <=? 70))%N then Some (Z.of_N c - 55)
  else None.

(** The mathematical value of a run of digits in base [radix], or [None]
    when a unit is not a digit of that base. *)
Fixpoint digitsIn (radix : Z) (acc : Z) (s : jsstring) : option Z :=
  match s with
  | [] => Some acc
  | c :: s' =>
      match hexDigit c with
      | Some d => if d <? radix then digitsIn radix (radix * acc + d) s' else None
      | None => None
      end
  end.

Definition digits (radix : Z) (s : jsstring) : option Z :=
  match s with
  | [] => None
  | _ :: _ => digitsIn radix 0 s
  end.

(** The longest prefix of units satisfying [p], and the rest. *)
Fixpoint span (p : N -> bool) (s : jsstring) : jsstring * jsstring :=
  match s with
  | c :: s' => if p c then let (a, b) := span p s' in (c :: a, b) else ([], s)
  | [] => ([], [])
  end.

(** NonDecimalIntegerLiteral: [0x], [0o] or [0b] (either case) and at least
    one digit of the base. *)
Definition parseNonDecimal (s : jsstring) : option Z :=
  match s with
  | c0 :: c1 :: ds =>
      if (c0 =? 48)%N then
        if ((c1 =? 120) || (c1 =? 88))%N then digits 16 ds
        else if ((c1 =? 111) || (c1 =? 79))%N then digits 8 ds
        else if ((c1 =? 98) || (c1 =? 66))%N then digits 2 ds
        else None
      else None
  | _ => None
  end.

(** An optional sign: whether it is [-], and what follows it. *)
Definition parseSign (s : jsstring) : bool * jsstring :=
  match s with
  | c :: u =>
      if (c =? 43)%N then (false, u)
      else if (c =? 45)%N then (true, u)
      else (false, s)
  | [] => (false, s)
  end.

(** ExponentPart, or nothing: the exponent it denotes. *)
Definition parseExponent (s : jsstring) : option Z :=
  match s with
  | [] => Some 0
  | c :: u =>
      if ((c =? 101) || (c =? 69))%N then
        let (minus, ds) := parseSign u in
        match digits 10 ds with
        | Some x => Some (if minus then - x else x)
        | None => None
        end
      else None
  end.

(** StrUnsignedDecimalLiteral other than [Infinity]: digits, an optional
    fraction (one of the two sides of the point may be empty, not both) and
    an optional exponent.  The result is the literal's mathematical value. *)
Definition parseUnsignedDecimal (s : jsstring) : option Q :=
  let (ip, r1) := span isDigit s in
  let '(point, fp, r2) :=
    match r1 with
    | 46%N :: r => let (fp, r2) := span isDigit r in (true, fp, r2)
    | _ => (false, [], r1)
    end in
  if negb (isEmpty ip) || (point && negb (isEmpty fp)) then
    match digitsIn 10 0 (ip ++ fp), parseExponent r2 with
    | Some m, Some x => Some (inject_Z m * Qpower 10 (x - Z.of_nat (length fp)))%Q
    | _, _ => None
    end
  else None.

(** [Number(s)] *)
Definition Number (s : jsstring) : jsnum :=
  let t := trim s in
  if isEmpty t then zero
  else match parseNonDecimal t with
       | Some z => round64 (inject_Z z)
       | None =>
           let (minus, u) := parseSign t in
           if JsString.eqb u (lit "Infinity") then Inf minus
           else match parseUnsignedDecimal u with
                | Some q => round64 (if minus then - q else q)
                | None => NaN
                end
       end.

(** *** [String(x)] on a number: Number::toString of ECMA-262, radix 10 *)

(** The decimal numeral of a natural number, as code units. *)
Fixpoint uintUnits (d : Decimal.uint) : jsstring :=
  match d with
  | Decimal.Nil => []
  | Decimal.D0 d => 48%N :: uintUnits d
  | Decimal.D1 d => 49%N :: uintUnits d
  | Decimal.D2 d => 50%N :: uintUnits d
  | Decimal.D3 d => 51%N :: uintUnits d
  | Decimal.D4 d => 52%N :: uintUnits d
  | Decimal.D5 d => 53%N :: uintUnits d
  | Decimal.D6 d => 54%N :: uintUnits d
  | Decimal.D7 d => 55%N :: uintUnits d
  | Decimal.D8 d => 56%N :: uintUnits d
  | Decimal.D9 d => 57%N :: uintUnits d
  end.

Definition decimal (z : Z) : jsstring := uintUnits (N.to_uint (Z.to_N z)).

(** The [n] with [10 ^ (n - 1) <= x < 10 ^ n], for a positive [x], searched
    upwards and then downwards from [0]; a binary64 value needs fewer than
    400 steps either way. *)
Fixpoint decExpUp (fuel : nat) (x : Q) (n : Z) : Z :=
  match fuel with
  | O => n
  | S fuel' => if Qle_bool (Qpower 10 n) x then decExpUp fuel' x (n + 1) else n
  end.

Fixpoint decExpDown (fuel : nat) (x : Q) (n : Z) : Z :=
  match fuel with
  | O => n
  | S fuel' =>
      if Qle_bool (Qpower 10 (n - 1)) x then n else decExpDown fuel' x (n - 1)
  end.

Definition decExponent (x : Q) : Z := decExpDown 400 x (decExpUp 400 x 0).

(** Whether the [k]-digit numeral [s], scaled to [s * 10 ^ (n - k)], reads
    back as [x]. *)
Definition readsBack (x : Q) (k n s : Z) : bool :=
  match round64 (inject_Z s * Qpower 10 (n - k)) with
  | Fin y => Qeq_bool x y
  | _ => false
  end.

(** The [k]-digit candidates for [x]: the two multiples of [10 ^ (n - k)]
    around it, each with its distance to [x].  The upper one may reach
    [10 ^ k]; it is then the one-digit-longer power of ten. *)
Definition candidates (x : Q) (k n : Z) : list (Z * Z * Q) :=
  let unit := Qpower 10 (n - k) in
  let lo := Qfloor (x / unit) in
  let hi := lo + 1 in
  let dist s := Qabs (inject_Z s * unit - x) in
  (lo, n, dist lo)
    :: (if hi =? 10 ^ k then (10 ^ (k - 1), n + 1, dist hi) else (hi, n, dist hi))
    :: [].

(** Of two candidates the closer one to [x]; the even one on a tie. *)
Definition closer (c d : Z * Z * Q) : Z * Z * Q :=
  match (snd c ?= snd d)%Q with
  | Lt => c
  | Gt => d
  | Eq => if Z.even (fst (fst c)) then c else d
  end.

(** The digits [s], their number [k] and the exponent [n] that
    Number::toString prints for a positive finite [x]: [k] as small as
    possible with [s * 10 ^ (n - k)] reading back as [x], and among those
    the closest to [x]. *)
Fixpoint shortest (fuel : nat) (x : Q) (n k : Z) : Z * Z * Z :=
  let ok := List.filter (fun c => readsBack x k (snd (fst c)) (fst (fst c)))
                        (candidates x k n) in
  match ok, fuel with
  | c :: cs, _ => let best := fold_left closer cs c in (fst (fst best), k, snd (fst best))
  | [], S fuel' => shortest fuel' x n (k + 1)
  | [], O => (Qfloor (x / Qpower 10 (n - k)), k, n)
  end.

Definition zeros (n : Z) : jsstring := replicate (Z.to_nat n) 48%N.

(** The layout of the digits [ds] (there are [k] of them) with the decimal
    point after the [n]-th. *)
Definition layout (ds : jsstring) (k n : Z) : jsstring :=
  if (k <=? n) && (n <=? 21) then ds ++ zeros (n - k)
  else if (0 <? n) && (n <=? 21) then
    take (Z.to_nat n) ds ++ lit "." ++ drop (Z.to_nat n) ds
  else if (-6 <? n) && (n <=? 0) then lit "0." ++ zeros (- n) ++ ds
  else
    let e := n - 1 in
    let mantissa := if k =? 1 then ds else take 1 ds ++ lit "." ++ drop 1 ds in
    mantissa ++ lit "e" ++ (if e <? 0 then lit "-" else lit "+") ++ decimal (Z.abs e).

(** An integer of magnitude at most [2 ^ 53]: every such integer is a
    binary64 value, and no two of them are the same value, so the numeral of
    the integer is the shortest that reads back. *)
Definition isSafeInteger (q : Q) : bool :=
  (Qden q =? 1)%positive && (Z.abs (Qnum q) <=? 2 ^ 53).

Definition toStringPos (x : Q) : jsstring :=
  if isSafeInteger x then decimal (Qnum x)
  else
    let '(s, k, n) := shortest 17 x (decExponent x) 1 in
    layout (decimal s) k n.

(** [String(a)] *)
Definition toString (a : jsnum) : jsstring :=
  match a with
  | NaN => lit "NaN"
  | Inf false => lit "Infinity"
  | Inf true => lit "-Infinity"
  | Fin q =>
      match Qnum q with
      | Z0 => lit "0"
      | Zpos _ => toStringPos q
      | Zneg _ => lit "-" ++ toStringPos (Qred (- q))
      end
  end.

(** *** The kernel's binary64

    A primitive float of Rocq denotes a Number too; the arithmetic above can
    be run side by side with the kernel's. *)
Definition ofFloat (f : float) : jsnum :=
  match Prim2SF f with
  | S754_zero _ => zero
  | S754_infinity s => Inf s
  | S754_nan => NaN
  | S754_finite s m e =>
      Fin (Qred (inject_Z (if s then Zneg m else Zpos m) * Qpower 2 e))
  end.

End JsNumber.

Export JsNumber.

(** ** The data model: the rows of the three collections

    Each row is a JSON object with string fields, as the data model of the
    specification has it. *)

Module Employee.
Record t : Type := { employeeId : jsstring; name : jsstring; phone : jsstring }.
#[global] Instance eq_dec : EqDecision t.
Proof. solve_decision. Defined.
End Employee.

Module Shift.
Record t : Type :=
  { shiftId : jsstring; date : jsstring; startTime : jsstring; endTime : jsstring }.
#[global] Instance eq_dec : EqDecision t.
Proof. solve_decision. Defined.
End Shift.

Module Assignment.
Record t : Type := { employeeId : jsstring; shiftId : jsstring }.
#[global] Instance eq_dec : EqDecision t.
Proof. solve_decision. Defined.
End Assignment.

(** ** The disk

    The four files [persistence.js] names.  A file is absent or holds a
    text; a text is garbled ([JSON.parse] throws on it) or encodes a JSON
    value; a JSON value is an array of rows, [null], or some other value, of
    which the program can only ever observe [Number(data.maxDailyHours)]. *)

Inductive filename : Type :=
| EMPLOYEES_FILE
| SHIFTS_FILE
| ASSIGNMENTS_FILE
| CONFIG_FILE.

#[global] Instance filename_eq_dec : EqDecision filename.
Proof. solve_decision. Defined.

Inductive json (A : Type) : Type :=
| JArray (rows : list A)
| JNull
| JOther (maxDailyHours : jsnum).
Arguments JArray {A} rows.
Arguments JNull {A}.
Arguments JOther {A} maxDailyHours.

Inductive text (A : Type) : Type :=
| Garbled
| Encodes (data : json A).
Arguments Garbled {A}.
Arguments Encodes {A} data.

(** [None]: there is no such file. *)
Definition file (A : Type) : Type := option (text A).

Definition rowOf (f : filename) : Type :=
  match f with
  | EMPLOYEES_FILE => Employee.t
  | SHIFTS_FILE => Shift.t
  | ASSIGNMENTS_FILE => Assignment.t
  | CONFIG_FILE => unit
  end.

Record disk : Type :=
  { employees_json : file Employee.t;
    shifts_json : file Shift.t;
    assignments_json : file Assignment.t;
    config_json : file unit }.

Definition content (d : disk) (f : filename) : file (rowOf f) :=
  match f with
  | EMPLOYEES_FILE => employees_json d
  | SHIFTS_FILE => shifts_json d
  | ASSIGNMENTS_FILE => assignments_json d
  | CONFIG_FILE => config_json d
  end.

Definition store (d : disk) (f : filename) : file (rowOf f) -> disk :=
  match f with
  | EMPLOYEES_FILE => fun c =>
      {| employees_json := c; shifts_json := shifts_json d;
         assignments_json := assignments_json d; config_json := config_json d |}
  | SHIFTS_FILE => fun c =>
      {| employees_json := employees_json d; shifts_json := c;
         assignments_json := assignments_json d; config_json := config_json d |}
  | ASSIGNMENTS_FILE => fun c =>
      {| employees_json := employees_json d; shifts_json := shifts_json d;
         assignments_json := c; config_json := config_json d |}
  | CONFIG_FILE => fun c =>
      {| employees_json := employees_json d; shifts_json := shifts_json d;
         assignments_json := assignments_json d; config_json := c |}
  end.

(** ** The world an operation runs in: the disk and the file-system calls
    made so far, oldest first. *)

Inductive event : Type :=
| EvRead (f : filename)
| EvWrite (f : filename).

Record world : Type := { files : disk; trace : list event }.

Inductive exn : Type := ENOENT | SyntaxError | TypeError.

Inductive outcome (A : Type) : Type :=
| Returned (a : A)
| Thrown (e : exn).
Arguments Returned {A} a.
Arguments Thrown {A} e.

(** An asynchronous function: it runs to completion from a world, returns or
    throws, and leaves a world.  There is one thread of control, so [await]
    is sequencing. *)
Definition io (A : Type) : Type := world -> outcome A * world.

Definition ret {A} (a : A) : io A := fun w => (Returned a, w).

Definition throw {A} (e : exn) : io A := fun w => (Thrown e, w).

Definition bind {A B} (m : io A) (k : A -> io B) : io B :=
  fun w =>
    match m w with
    | (Returned a, w') => k a w'
    | (Thrown e, w') => (Thrown e, w')
    end.

(** [try { m } catch (err) { handler }] *)
Definition tryCatch {A} (m : io A) (handler : exn -> io A) : io A :=
  fun w =>
    match m w with
    | (Returned a, w') => (Returned a, w')
    | (Thrown e, w') => handler e w'
    end.

Notation "'let*' x ':=' m 'in' k" := (bind m (fun x => k))
  (at level 10, x pattern, m at level 100, k at level 200).

Notation "m ';;' k" := (bind m (fun _ => k))
  (at level 100, k at level 200, right associativity).

(** [fs.readFile(filename, "utf8")] *)
Definition fs_readFile (f : filename) : io (text (rowOf f)) :=
  fun w =>
    let w' := {| files := files w; trace := trace w ++ [EvRead f] |} in
    match content (files w) f with
    | Some t => (Returned t, w')
    | None => (Thrown ENOENT, w')
    end.

(** [fs.writeFile(filename, text, "utf8")] *)
Definition fs_writeFile (f : filename) (t : text (rowOf f)) : io unit :=
  fun w =>
    (Returned tt,
     {| files := store (files w) f (Some t); trace := trace w ++ [EvWrite f] |}).

(** [JSON.parse(text)] *)
Definition JSON_parse {A} (t : text A) : io (json A) :=
  match t with
  | Encodes data => ret data
  | Garbled => throw SyntaxError
  end.

(** [JSON.stringify(data, null, 4)] on an array of rows. *)
Definition JSON_stringify {A} (data : list A) : text A := Encodes (JArray data).

(** ** persistence.js *)

Module Persistence.

(** [readJsonArray(filename)]: the array in the file, and the empty array
    when the file is missing, is not JSON, or is not an array. *)
Definition readJsonArray (f : filename) : io (list (rowOf f)) :=
  tryCatch
    (let* text := fs_readFile f in
     let* data := JSON_parse text in
     match data with
     | JArray rows => ret rows
     | _ => ret []
     end)
    (fun err => ret []).

(** [writeJsonArray(filename, data)] *)
Definition writeJsonArray (f : filename) (data : list (rowOf f)) : io unit :=
  let text := JSON_stringify data in
  fs_writeFile f text.

Definition getAllEmployees : io (list Employee.t) := readJsonArray EMPLOYEES_FILE.

(** [!hours || hours <= 0] *)
Definition notPositive (hours : jsnum) : bool :=
  match hours with
  | NaN => true
  | Inf negative => negative
  | Fin q => match (q ?= 0)%Q with Gt => false | _ => true end
  end.

(** [getMaxDailyHours()]: [maxDailyHours] of [config.json], and [9] when
    that cannot be read or is not a positive number.  [data.maxDailyHours]
    throws on [null] and is [undefined] on an array. *)
Definition getMaxDailyHours : io jsnum :=
  tryCatch
    (let* text := fs_readFile CONFIG_FILE in
     let* data := JSON_parse text in
     let* hours := match data with
                   | JNull => throw TypeError
                   | JArray _ => ret NaN
                   | JOther maxDailyHours => ret maxDailyHours
                   end in
     if notPositive hours then ret (ofZ 9) else ret hours)
    (fun err => ret (ofZ 9)).

(** [findEmployee(employeeId)]: the first row with that id, [None] for
    [undefined]. *)
Definition findEmployee (employeeId : jsstring) : io (option Employee.t) :=
  let* employees := readJsonArray EMPLOYEES_FILE in
  ret (List.find (fun e => JsString.eqb (Employee.employeeId e) employeeId) employees).

(** [addEmployee(employee)] *)
Definition addEmployee (employee : Employee.t) : io unit :=
  let* employees := readJsonArray EMPLOYEES_FILE in
  writeJsonArray EMPLOYEES_FILE (employees ++ [employee]).

Definition getAllShifts : io (list Shift.t) := readJsonArray SHIFTS_FILE.

(** [findShift(shiftId)] *)
Definition findShift (shiftId : jsstring) : io (option Shift.t) :=
  let* shifts := readJsonArray SHIFTS_FILE in
  ret (List.find (fun s => JsString.eqb (Shift.shiftId s) shiftId) shifts).

Definition getAllAssignments : io (list Assignment.t) := readJsonArray ASSIGNMENTS_FILE.

(** [addAssignment(assignment)] *)
Definition addAssignment (assignment : Assignment.t) : io unit :=
  let* assignments := readJsonArray ASSIGNMENTS_FILE in
  writeJsonArray ASSIGNMENTS_FILE (assignments ++ [assignment]).

(** [findAssignment(employeeId, shiftId)] *)
Definition findAssignment (employeeId shiftId : jsstring) : io (option Assignment.t) :=
  let* assignments := readJsonArray ASSIGNMENTS_FILE in
  ret (List.find
         (fun a => JsString.eqb (Assignment.employeeId a) employeeId
                   && JsString.eqb (Assignment.shiftId a) shiftId)
         assignments).

(** [getAssignmentsByEmployee(employeeId)] *)
Definition getAssignmentsByEmployee (employeeId : jsstring) : io (list Assignment.t) :=
  let* assignments := readJsonArray ASSIGNMENTS_FILE in
  ret (List.filter (fun a => JsString.eqb (Assignment.employeeId a) employeeId)
         assignments).

End Persistence.

(** ** business.js *)

Module Business.

(** The object an operation returns: [{ok, message}] or [{ok, rows}]. *)
Record result : Type :=
  { ok : bool; message : option jsstring; rows : option (list Shift.t) }.

Definition reply (ok : bool) (message : string) : result :=
  {| ok := ok; message := Some (lit message); rows := None |}.


(** The number after the first unit of an employee id:
    [Number(String(id).substring(1))]. *)
Definition suffixNumber (e : Employee.t) : jsnum :=
  Number (substring1 (Employee.employeeId e)).

(** The body of the loop of [getNextEmployeeId]: [maxNumber] after the
    employee [e] has been looked at. *)
Definition keepLarger (maxNumber : jsnum) (e : Employee.t) : jsnum :=
  let number := suffixNumber e in
  if gtb number maxNumber then number else maxNumber.

(** [maxNumber] when the loop ends. *)
Definition maxNumber (employees : list Employee.t) : jsnum :=
  fold_left keepLarger employees zero.

(** [getNextEmployeeId(employees)] *)
Definition getNextEmployeeId (employees : list Employee.t) : jsstring :=
  lit "E" ++ padStart 3 48 (toString (add (maxNumber employees) (ofZ 1))).

Definition getEmployees : io (list Employee.t) := Persistence.getAllEmployees.

(** [addNewEmployee(name, phone)] *)
Definition addNewEmployee (name phone : jsstring) : io result :=
  let n := trim name in
  let p := trim phone in
  if isEmpty n || isEmpty p then ret (reply false "Invalid input.")
  else
    let* employees := Persistence.getAllEmployees in
    let employee :=
      {| Employee.employeeId := getNextEmployeeId employees;
         Employee.name := n;
         Employee.phone := p |} in
    Persistence.addEmployee employee ;;
    ret (reply true "Employee added...").

(** [assignEmployeeToShift(employeeId, shiftId)] *)
Definition assignEmployeeToShift (employeeId shiftId : jsstring) : io result :=
  let empId := trim employeeId in
  let shId := trim shiftId in
  if isEmpty empId || isEmpty shId then ret (reply false "Invalid input.")
  else
    let* employee := Persistence.findEmployee empId in
    match employee with
    | None => ret (reply false "Employee does not exist")
    | Some _ =>
        let* shift := Persistence.findShift shId in
        match shift with
        | None => ret (reply false "Shift does not exist")
        | Some _ =>
            let* existing := Persistence.findAssignment empId shId in
            match existing with
            | Some _ => ret (reply false "Employee already assigned to shift")
            | None =>
                Persistence.addAssignment
                  {| Assignment.employeeId := empId; Assignment.shiftId := shId |} ;;
                ret (reply true "Shift Recorded")
            end
        end
    end.

(** What [sortShifts] compares: [rows[j].date + rows[j].startTime]. *)
Definition sortKey (r : Shift.t) : jsstring := Shift.date r ++ Shift.startTime r.

(** The body of the inner loop at index [j]: exchange [rows[j]] and
    [rows[j + 1]] when their keys are out of order.  The loop bounds keep
    both indices inside the array. *)
Definition exchange (rows : list Shift.t) (j : nat) : list Shift.t :=
  match rows !! j, rows !! (j + 1)%nat with
  | Some a, Some b =>
      if JsString.gtb (sortKey a) (sortKey b)
      then <[(j + 1)%nat := a]> (<[j := b]> rows)
      else rows
  | _, _ => rows
  end.

(** [for (let j = 0; j < rows.length - 1; j++) ...] *)
Definition innerLoop (rows : list Shift.t) : list Shift.t :=
  fold_left exchange (seq 0 (length rows - 1)) rows.

(** [sortShifts(rows)]: the array after the call. *)
Definition sortShifts (rows : list Shift.t) : list Shift.t :=
  fold_left (fun rows i => innerLoop rows) (seq 0 (length rows)) rows.

(** The loop of [getEmployeeSchedule]: look every assignment's shift up, in
    order, and keep the ones found. *)
Fixpoint collectShifts (assignments : list Assignment.t) (rows : list Shift.t)
  : io (list Shift.t) :=
  match assignments with
  | [] => ret rows
  | a :: assignments' =>
      let* shift := Persistence.findShift (Assignment.shiftId a) in
      match shift with
      | Some s => collectShifts assignments' (rows ++ [s])
      | None => collectShifts assignments' rows
      end
  end.

(** [getEmployeeSchedule(employeeId)] *)
Definition getEmployeeSchedule (employeeId : jsstring) : io result :=
  let empId := trim employeeId in
  let* employee := Persistence.findEmployee empId in
  match employee with
  | None => ret {| ok := false; message := Some (lit ""); rows := None |}
  | Some _ =>
      let* assignments := Persistence.getAssignmentsByEmployee empId in
      let* rows := collectShifts assignments [] in
      ret {| ok := true; message := None; rows := Some (sortShifts rows) |}
  end.

End Business.

(** ** The terminal

    [presentation.js] and the one-file program [assignment1.js] talk to the
    user: they print lines with [console.log] and read answers with
    [prompt].  A terminal is the world and the lines logged so far, oldest
    first.  What the user types is given to a function as its arguments;
    [prompt] hands the answers over in order, and a function that needs more
    answers than were typed has not got past its prompts. *)

Record terminal : Type := { world_of : world; screen : list jsstring }.

(** A function of the presentation layer: it runs from a terminal, returns
    or throws, and leaves a terminal. *)
Definition ui (A : Type) : Type := terminal -> outcome A * terminal.

Definition say {A} (a : A) : ui A := fun t => (Returned a, t).

Definition raise {A} (e : exn) : ui A := fun t => (Thrown e, t).

Definition andThen {A B} (m : ui A) (k : A -> ui B) : ui B :=
  fun t =>
    match m t with
    | (Returned a, t') => k a t'
    | (Thrown e, t') => (Thrown e, t')
    end.

(** [await m] for a function [m] of the layers below. *)
Definition await {A} (m : io A) : ui A :=
  fun t =>
    let (r, w) := m (world_of t) in
    (r, {| world_of := w; screen := screen t |}).

(** [console.log(line)] *)
Definition console_log (line : jsstring) : ui unit :=
  fun t => (Returned tt, {| world_of := world_of t; screen := screen t ++ [line] |}).

Notation "'let+' x ':=' m 'in' k" := (andThen m (fun x => k))
  (at level 10, x pattern, m at level 100, k at level 200).

Notation "m ';;+' k" := (andThen m (fun _ => k))
  (at level 100, k at level 200, right associativity).

(** How a program stands when the typed lines are used up: it has left its
    loop, or it waits at a prompt. *)
Inductive status : Type :=
| Exited
| AwaitingInput.

(** What [console.log] prints for a property that may be missing. *)
Definition shown (value : option jsstring) : jsstring :=
  match value with
  | Some s => s
  | None => lit "undefined"
  end.

(** ** presentation.js *)

Module Presentation.

(** [printMenu()] *)
Definition printMenu : ui unit :=
  console_log (lit "") ;;+
  console_log (lit "1. Show all employees") ;;+
  console_log (lit "2. Add new employee") ;;+
  console_log (lit "3. Assign employee to shift") ;;+
  console_log (lit "4. View employee schedule") ;;+
  console_log (lit "5. Exit").

(** [padRight(value, width)]: [String(value).padEnd(width, " ")]. *)
Definition padRight (value : jsstring) (width : nat) : jsstring :=
  value ++ replicate (width - length value) 32%N.

(** [getMaxNameWidth(employees)] *)
Definition getMaxNameWidth (employees : list Employee.t) : nat :=
  fold_left
    (fun max e =>
       let name := Employee.name e in
       if (max <? length name)%nat then length name else max)
    employees 4%nat.

(** A line of the table: three padded cells, a space between two. *)
Definition tableLine (idWidth nameWidth phoneWidth : nat) (id name phone : jsstring)
  : jsstring :=
  padRight id idWidth ++ lit " " ++ padRight name nameWidth ++ lit " "
  ++ padRight phone phoneWidth.

(** The loop of [showAllEmployees]: one line per employee. *)
Fixpoint logEmployees (idWidth nameWidth phoneWidth : nat)
  (employees : list Employee.t) : ui unit :=
  match employees with
  | [] => say tt
  | emp :: rest =>
      console_log
        (tableLine idWidth nameWidth phoneWidth (Employee.employeeId emp)
           (Employee.name emp) (Employee.phone emp)) ;;+
      logEmployees idWidth nameWidth phoneWidth rest
  end.

(** What [showAllEmployees] prints for a list of employees. *)
Definition logTable (employees : list Employee.t) : ui unit :=
  let nameWidth := getMaxNameWidth employees in
  let idWidth := 11%nat in
  let phoneWidth := 9%nat in
  console_log (lit "") ;;+
  console_log
    (tableLine idWidth nameWidth phoneWidth (lit "Employee ID") (lit "Name")
       (lit "Phone")) ;;+
  console_log
    (tableLine idWidth nameWidth phoneWidth (lit "-----------")
       (lit "-------------------") (lit "---------")) ;;+
  logEmployees idWidth nameWidth phoneWidth employees.

(** [showAllEmployees()] *)
Definition showAllEmployees : ui unit :=
  let+ employees := await Business.getEmployees in
  logTable employees.

(** [addEmployeeMenu()], the two answers typed being [typedName] and
    [typedPhone]. *)
Definition addEmployeeMenu (typedName typedPhone : jsstring) : ui unit :=
  let name := trim typedName in
  let phone := trim typedPhone in
  let+ result := await (Business.addNewEmployee name phone) in
  console_log (shown (Business.message result)).

(** [assignEmployeeMenu()] *)
Definition assignEmployeeMenu (typedEmployeeId typedShiftId : jsstring) : ui unit :=
  let employeeId := trim typedEmployeeId in
  let shiftId := trim typedShiftId in
  let+ result := await (Business.assignEmployeeToShift employeeId shiftId) in
  console_log (shown (Business.message result)).

(** A line of a schedule: [date + "," + startTime + "," + endTime]. *)
Definition scheduleLine (r : Shift.t) : jsstring :=
  Shift.date r ++ lit "," ++ Shift.startTime r ++ lit "," ++ Shift.endTime r.

(** The loop that prints a schedule. *)
Fixpoint logRows (rows : list Shift.t) : ui unit :=
  match rows with
  | [] => say tt
  | r :: rest => console_log (scheduleLine r) ;;+ logRows rest
  end.

(** [viewScheduleMenu()].  [result.rows] is missing only when [result.ok]
    is false; reading its length otherwise would throw. *)
Definition viewScheduleMenu (typedEmployeeId : jsstring) : ui unit :=
  let employeeId := trim typedEmployeeId in
  console_log (lit "date,startTime,endTime") ;;+
  let+ result := await (Business.getEmployeeSchedule employeeId) in
  if negb (Business.ok result) then say tt
  else match Business.rows result with
       | Some rows => logRows rows
       | None => raise TypeError
       end.

(** [main()], the lines typed being [typed]: the menu, a choice, the
    answers the choice asks for, and over again, until the choice is 5 or
    the typed lines are used up. *)
Fixpoint main (typed : list jsstring) : ui status :=
  printMenu ;;+
  match typed with
  | [] => say AwaitingInput
  | line :: typed' =>
      let choice := trim line in
      if JsString.eqb choice (lit "1") then showAllEmployees ;;+ main typed'
      else if JsString.eqb choice (lit "2") then
        match typed' with
        | name :: phone :: typed'' => addEmployeeMenu name phone ;;+ main typed''
        | _ => say AwaitingInput
        end
      else if JsString.eqb choice (lit "3") then
        match typed' with
        | employeeId :: shiftId :: typed'' =>
            assignEmployeeMenu employeeId shiftId ;;+ main typed''
        | _ => say AwaitingInput
        end
      else if JsString.eqb choice (lit "4") then
        match typed' with
        | employeeId :: typed'' => viewScheduleMenu employeeId ;;+ main typed''
        | [] => say AwaitingInput
        end
      else if JsString.eqb choice (lit "5") then say Exited
      else console_log (lit "Invalid choice") ;;+ main typed'
  end.

End Presentation.

(** ** assignment1.js

    The program in one file.  Its [readJsonArray], [writeJsonArray],
    [printMenu], [padRight], [getMaxNameWidth], [getNextEmployeeId] and
    [sortShifts] have the text of the ones above (its [getNextEmployeeId]
    takes [id.substring(1)] without [String(id)], the same on a string). *)

Module Assignment1.

(** [showAllEmployees()] *)
Definition showAllEmployees : ui unit :=
  let+ employees := await (Persistence.readJsonArray EMPLOYEES_FILE) in
  Presentation.logTable employees.

(** [addNewEmployee()] *)
Definition addNewEmployee (typedName typedPhone : jsstring) : ui unit :=
  let name := trim typedName in
  let phone := trim typedPhone in
  if isEmpty name || isEmpty phone then console_log (lit "Invalid input.")
  else
    let+ employees := await (Persistence.readJsonArray EMPLOYEES_FILE) in
    let employees :=
      employees
        ++ [{| Employee.employeeId := Business.getNextEmployeeId employees;
               Employee.name := name;
               Employee.phone := phone |}] in
    await (Persistence.writeJsonArray EMPLOYEES_FILE employees) ;;+
    console_log (lit "Employee added...").

(** [employeeExists(employees, employeeId)] *)
Definition employeeExists (employees : list Employee.t) (employeeId : jsstring) : bool :=
  existsb (fun e => JsString.eqb (Employee.employeeId e) employeeId) employees.

(** [shiftExists(shifts, shiftId)] *)
Definition shiftExists (shifts : list Shift.t) (shiftId : jsstring) : bool :=
  existsb (fun s => JsString.eqb (Shift.shiftId s) shiftId) shifts.

(** [isAlreadyAssigned(assignments, employeeId, shiftId)] *)
Definition isAlreadyAssigned (assignments : list Assignment.t)
  (employeeId shiftId : jsstring) : bool :=
  existsb
    (fun a => JsString.eqb (Assignment.employeeId a) employeeId
              && JsString.eqb (Assignment.shiftId a) shiftId)
    assignments.

(** [assignEmployeeToShift()] *)
Definition assignEmployeeToShift (typedEmployeeId typedShiftId : jsstring) : ui unit :=
  let employeeId := trim typedEmployeeId in
  let shiftId := trim typedShiftId in
  let+ employees := await (Persistence.readJsonArray EMPLOYEES_FILE) in
  let+ shifts := await (Persistence.readJsonArray SHIFTS_FILE) in
  let+ assignments := await (Persistence.readJsonArray ASSIGNMENTS_FILE) in
  if negb (employeeExists employees employeeId) then
    console_log (lit "Employee does not exist")
  else if negb (shiftExists shifts shiftId) then
    console_log (lit "Shift does not exist")
  else if isAlreadyAssigned assignments employeeId shiftId then
    console_log (lit "Employee already assigned to shift")
  else
    let assignments :=
      assignments
        ++ [{| Assignment.employeeId := employeeId; Assignment.shiftId := shiftId |}] in
    await (Persistence.writeJsonArray ASSIGNMENTS_FILE assignments) ;;+
    console_log (lit "Shift Recorded").

(** [findShiftById(shifts, shiftId)] *)
Definition findShiftById (shifts : list Shift.t) (shiftId : jsstring) : option Shift.t :=
  List.find (fun s => JsString.eqb (Shift.shiftId s) shiftId) shifts.

(** The loop of [viewEmployeeSchedule] that gathers the rows. *)
Fixpoint gatherRows (shifts : list Shift.t) (employeeId : jsstring)
  (assignments : list Assignment.t) (rows : list Shift.t) : list Shift.t :=
  match assignments with
  | [] => rows
  | a :: rest =>
      if JsString.eqb (Assignment.employeeId a) employeeId then
        match findShiftById shifts (Assignment.shiftId a) with
        | Some shift => gatherRows shifts employeeId rest (rows ++ [shift])
        | None => gatherRows shifts employeeId rest rows
        end
      else gatherRows shifts employeeId rest rows
  end.

(** [viewEmployeeSchedule()] *)
Definition viewEmployeeSchedule (typedEmployeeId : jsstring) : ui unit :=
  let employeeId := trim typedEmployeeId in
  let+ employees := await (Persistence.readJsonArray EMPLOYEES_FILE) in
  let+ shifts := await (Persistence.readJsonArray SHIFTS_FILE) in
  let+ assignments := await (Persistence.readJsonArray ASSIGNMENTS_FILE) in
  console_log (lit "date,startTime,endTime") ;;+
  if negb (employeeExists employees employeeId) then say tt
  else
    let rows := gatherRows shifts employeeId assignments [] in
    let rows := Business.sortShifts rows in
    Presentation.logRows rows.

(** [main()] *)
Fixpoint main (typed : list jsstring) : ui status :=
  Presentation.printMenu ;;+
  match typed with
  | [] => say AwaitingInput
  | line :: typed' =>
      let choice := trim line in
      if JsString.eqb choice (lit "1") then showAllEmployees ;;+ main typed'
      else if JsString.eqb choice (lit "2") then
        match typed' with
        | name :: phone :: typed'' => addNewEmployee name phone ;;+ main typed''
        | _ => say AwaitingInput
        end
      else if JsString.eqb choice (lit "3") then
        match typed' with
        | employeeId :: shiftId :: typed'' =>
            assignEmployeeToShift employeeId shiftId ;;+ main typed''
        | _ => say AwaitingInput
        end
      else if JsString.eqb choice (lit "4") then
        match typed' with
        | employeeId :: typed'' => viewEmployeeSchedule employeeId ;;+ main typed''
        | [] => say AwaitingInput
        end
      else if JsString.eqb choice (lit "5") then say Exited
      else console_log (lit "Invalid choice") ;;+ main typed'
  end.

End Assignment1.

(** ** The vocabulary of the specification

    The specification speaks of the rows of a collection, of an employee or
    a shift existing, and of an assignment being recorded; these are read off
    the disk directly, without going through the code. *)

Import Persistence Business.

(** The rows a collection holds: those of the array in its file, and none
    when the file has no array to offer. *)
Definition rowsIn (d : disk) (f : filename) : list (rowOf f) :=
  match content d f with
  | Some (Encodes (JArray rows)) => rows
  | _ => []
  end.

(** A file from which no array can be read: it is missing, it is not JSON,
    or its JSON value is not an array. *)
Definition unreadable {A} (c : file A) : Prop :=
  match c with
  | Some (Encodes (JArray _)) => False
  | _ => True
  end.

Definition employees (d : disk) : list Employee.t := rowsIn d EMPLOYEES_FILE.
Definition shifts (d : disk) : list Shift.t := rowsIn d SHIFTS_FILE.
Definition assignments (d : disk) : list Assignment.t := rowsIn d ASSIGNMENTS_FILE.

Definition employeeExists (d : disk) (employeeId : jsstring) : bool :=
  existsb (fun e => JsString.eqb (Employee.employeeId e) employeeId) (employees d).

Definition shiftExists (d : disk) (shiftId : jsstring) : bool :=
  existsb (fun s => JsString.eqb (Shift.shiftId s) shiftId) (shifts d).

Definition isPair (employeeId shiftId : jsstring) (a : Assignment.t) : bool :=
  JsString.eqb (Assignment.employeeId a) employeeId
  && JsString.eqb (Assignment.shiftId a) shiftId.


Definition isAssigned (d : disk) (employeeId shiftId : jsstring) : bool :=
  existsb (isPair employeeId shiftId) (assignments d).


(** The disk after a collection's file has been rewritten with [rows]. *)
Definition rewritten (d : disk) (f : filename) (rows : list (rowOf f)) : disk :=
  store d f (Some (Encodes (JArray rows))).

(** The world after more file-system calls, the disk being as given. *)
Definition after (d : disk) (calls : list event) (w : world) : world :=
  {| files := d; trace := trace w ++ calls |}.

(** The files an operation wrote, read off the calls it added to the trace. *)
Definition writes (calls : list event) : list filename :=
  flat_map (fun ev => match ev with EvWrite f => [f] | EvRead _ => [] end) calls.

(** Two disks hold the same three collections. *)
Definition sameCollections (d d' : disk) : Prop :=
  employees d = employees d' /\ shifts d = shifts d' /\ assignments d = assignments d'.

(** The shifts the assignments of an employee resolve to, in the order of
    the assignments; an assignment whose shift is not stored resolves to
    nothing. *)
Definition resolvedShifts (d : disk) (employeeId : jsstring) : list Shift.t :=
  flat_map
    (fun a =>
       match List.find (fun s => JsString.eqb (Shift.shiftId s) (Assignment.shiftId a))
                       (shifts d) with
       | Some s => [s]
       | None => []
       end)
    (List.filter (fun a => JsString.eqb (Assignment.employeeId a) employeeId)
       (assignments d)).

(** The order of a schedule: row [a] may stand before row [b]. *)
Definition keyLe (a b : Shift.t) : Prop := JsString.le (sortKey a) (sortKey b).

(** The rows of [l] whose key is [k], in their order in [l]. *)
Definition withKey (k : jsstring) (l : list Shift.t) : list Shift.t :=
  List.filter (fun r => JsString.eqb (sortKey r) k) l.

(** The ordering contract of a schedule: [output] holds the rows of [input],
    ascending by key, the rows of one key in the order [input] has them. *)
Definition stableSortOf (input output : list Shift.t) : Prop :=
  Permutation input output
  /\ StronglySorted keyLe output
  /\ forall k, withKey k output = withKey k input.

(** One run of the inner loop, seen on the list rather than through
    indices: [x] is the row the loop holds at [rows[j]], [l] the rows after
    it. *)
Fixpoint bubble (x : Shift.t) (l : list Shift.t) : list Shift.t :=
  match l with
  | [] => [x]
  | y :: l' =>
      if JsString.gtb (sortKey x) (sortKey y) then y :: bubble x l'
      else x :: bubble y l'
  end.

Definition pass (l : list Shift.t) : list Shift.t :=
  match l with
  | [] => []
  | x :: l' => bubble x l'
  end.

(** The world with [config.json] replaced by [c]. *)
Definition withConfig (c : file unit) (w : world) : world :=
  {| files := store (files w) CONFIG_FILE c; trace := trace w |}.

(** The world with the file [f] holding the empty array. *)
Definition emptied (f : filename) (w : world) : world :=
  {| files := rewritten (files w) f []; trace := trace w |}.

(** From [w] to [w'] no file outside [allowed] was written, and none
    changed. *)
Definition writesOnly (allowed : list filename) (w w' : world) : Prop :=
  (exists calls,
      trace w' = trace w ++ calls /\ forall f, In f (writes calls) -> In f allowed)
  /\ forall f, ~ In f allowed -> content (files w') f = content (files w) f.

(** Two runs that cannot be told apart by what they return, by the
    file-system calls they leave in the trace, or by the collections they
    leave on disk. *)
Definition sameOutcome {A} (r1 r2 : outcome A * world) : Prop :=
  fst r1 = fst r2
  /\ trace (snd r1) = trace (snd r2)
  /\ sameCollections (files (snd r1)) (files (snd r2)).

(** Two runs that agree on what they return, on their file-system calls and
    on every file but [config.json]. *)
Definition sameButConfig {A} (r1 r2 : outcome A * world) : Prop :=
  fst r1 = fst r2
  /\ trace (snd r1) = trace (snd r2)
  /\ forall f, f <> CONFIG_FILE -> content (files (snd r1)) f = content (files (snd r2)) f.

(** The calls a client can make of the engine, and the world each leaves. *)
Inductive call : Type :=
| CallGetEmployees
| CallAddNewEmployee (name phone : jsstring)
| CallAssignEmployeeToShift (employeeId shiftId : jsstring)
| CallGetEmployeeSchedule (employeeId : jsstring).

Definition perform (w : world) (c : call) : world :=
  match c with
  | CallGetEmployees => snd (getEmployees w)
  | CallAddNewEmployee name phone => snd (addNewEmployee name phone w)
  | CallAssignEmployeeToShift employeeId shiftId =>
      snd (assignEmployeeToShift employeeId shiftId w)
  | CallGetEmployeeSchedule employeeId => snd (getEmployeeSchedule employeeId w)
  end.








(** The greatest of [0] and the numeric suffixes of a list of employees, as
    the specification words it: [m] is a number, not below [0], it is [0]
    or the suffix of some employee of the list, and no suffix of the list is
    greater (a suffix that is not numeric is greater than nothing). *)
Definition isMaxSuffix (L : list Employee.t) (m : jsnum) : Prop :=
  isNaN m = false
  /\ ltb m zero = false
  /\ (m = zero \/ exists e, In e L /\ suffixNumber e = m)
  /\ forall e, In e L -> gtb (suffixNumber e) m = false.

(** The suffix of an id as an integer, a suffix that is not numeric
    contributing [0]. *)
Definition suffixZ (e : Employee.t) : Z :=
  match suffixNumber e with
  | Fin q => Qfloor q
  | _ => 0
  end.

Definition maxSuffixZ (L : list Employee.t) : Z :=
  fold_right Z.max 0 (map suffixZ L).

(** Ids as the engine generates them and as a person would type one: every
    suffix is not numeric, or is an integer below [2 ^ 53]. *)
Definition plainSuffixes (L : list Employee.t) : Prop :=
  Forall
    (fun e => suffixNumber e = NaN \/ exists z, suffixNumber e = ofZ z /\ z < 2 ^ 53)
    L.

(** An employee with the given id. *)
Definition employeeWithId (id : string) : Employee.t :=
  {| Employee.employeeId := lit id; Employee.name := lit "Ada";
     Employee.phone := lit "555" |}.

(** A string of decimal digits. *)
Definition allDigits (s : jsstring) : Prop := Forall (fun c => isDigit c = true) s.

(** Three employees: E001, E007 and one whose id has no number in it. *)
Definition sampleStaff : list Employee.t :=
  [employeeWithId "E001"; employeeWithId "E007"; employeeWithId "Exyz"].

(** Closes a [sameOutcome] goal once both runs are written out; [rewrites]
    is the fact that rewriting one file with the same rows keeps two disks
    alike. *)
Ltac same_outcome rewrites :=
  split; [|split];
  [ reflexivity
  | reflexivity
  | first [ apply rewrites; now repeat split | now repeat split ] ].

(** ** The built-ins on sample inputs

    [Number], [String] and the arithmetic, run on literals whose JavaScript
    values are well known, and the arithmetic run beside the kernel's
    binary64. *)

Section BuiltinSamples.

#[local] Set Warnings "-inexact-float".

Example trim_strips_both_ends : trim (lit "  E001 ") = lit "E001".
Proof. reflexivity. Qed.

Example trim_strips_no_break_space : trim [160; 69; 8239; 9]%N = [69]%N.
Proof. reflexivity. Qed.

Example split_on_colon :
  split 58 (lit "11:00") = [lit "11"; lit "00"]
  /\ split 58 (lit "bad") = [lit "bad"]
  /\ split 58 (lit "") = [[]]
  /\ split 58 (lit "1:2:3") = [lit "1"; lit "2"; lit "3"]
  /\ split 58 (lit ":") = [[]; []].
Proof. repeat apply conj; reflexivity. Qed.

Example compare_is_by_code_unit :
  JsString.gtb (lit "2024-01-02") (lit "2024-01-01") = true
  /\ JsString.gtb (lit "9") (lit "10") = true
  /\ JsString.gtb (lit "ab") (lit "a") = true
  /\ JsString.gtb (lit "a") (lit "a") = false.
Proof. repeat apply conj; reflexivity. Qed.

Example Number_of_literals :
  Number (lit "001") = ofZ 1
  /\ Number (lit "") = zero
  /\ Number (lit " 12 ") = ofZ 12
  /\ Number (lit "-5") = ofZ (-5)
  /\ Number (lit "1.5") = Fin (3 # 2)
  /\ Number (lit "1e3") = ofZ 1000
  /\ Number (lit "0x1F") = ofZ 31
  /\ Number (lit "Infinity") = Inf false
  /\ Number (lit "xyz") = NaN
  /\ Number (lit "1.5.2") = NaN
  /\ Number (lit "12px") = NaN
  /\ Number (lit "0.1") = Fin (3602879701896397 # 36028797018963968)
  /\ Number (lit "9007199254740993") = ofZ 9007199254740992
  /\ Number (lit "1e309") = Inf false.
Proof. repeat apply conj; now vm_compute. Qed.

Example String_of_numbers :
  toString (ofZ 8) = lit "8"
  /\ toString (Fin (5 # 2)) = lit "2.5"
  /\ toString (Number (lit "0.1")) = lit "0.1"
  /\ toString (add (Number (lit "0.1")) (Number (lit "0.2"))) = lit "0.30000000000000004"
  /\ toString (Number (lit "1e21")) = lit "1e+21"
  /\ toString (Number (lit "1152921504606846976")) = lit "1152921504606847000"
  /\ toString (Number (lit "0.0000001")) = lit "1e-7"
  /\ toString (Number (lit "5e-324")) = lit "5e-324"
  /\ toString (Inf false) = lit "Infinity"
  /\ toString NaN = lit "NaN".
Proof. repeat apply conj; now vm_compute. Qed.

(** The digits the search finds for a whole number below [2 ^ 53] are its
    numeral, here on samples: what [toStringPos] takes for granted. *)
Example shortest_digits_of_integers :
  Forall
    (fun z =>
       let '(s, k, n) := shortest 17 (inject_Z z) (decExponent (inject_Z z)) 1 in
       layout (decimal s) k n = decimal z)
    [1; 8; 10; 120; 1000; 123456789; 4503599627370496; 9007199254740990;
     9007199254740991; 9007199254740992].
Proof.
  do 10 (apply List.Forall_cons; [vm_compute; reflexivity|]). apply List.Forall_nil.
Qed.

Example arithmetic_beside_the_kernel :
  add (Number (lit "0.1")) (Number (lit "0.2")) = ofFloat (0.1 + 0.2)
  /\ sub (Number (lit "0.7")) (Number (lit "0.1")) = ofFloat (0.7 - 0.1)
  /\ mul (Number (lit "0.1")) (ofZ 60) = ofFloat (0.1 * 60)
  /\ div (ofZ 100) (ofZ 60) = ofFloat (100 / 60)
  /\ div (ofZ 150) (ofZ 60) = ofFloat 2.5
  /\ add (ofZ (2 ^ 53)) (ofZ 1) = ofFloat (9007199254740992 + 1)
  /\ add (ofZ (2 ^ 53)) (ofZ 3) = ofFloat (9007199254740992 + 3)
  /\ mul (Number (lit "1e308")) (ofZ 10) = ofFloat (1e308 * 10)
  /\ div (Number (lit "5e-324")) (ofZ 2) = ofFloat (5e-324 / 2)
  /\ mul (Number (lit "2.2250738585072014e-308")) (Number (lit "0.3"))
     = ofFloat (2.2250738585072014e-308 * 0.3).
Proof. repeat apply conj; now vm_compute. Qed.

End BuiltinSamples.

(** ** How the persistence layer runs *)

Section Runs.

Lemma bind_returned {A B} (m : io A) (k : A -> io B) w a w' :
  m w = (Returned a, w') -> bind m k w = k a w'.
Proof. intros H. unfold bind. now rewrite H. Qed.

Lemma readJsonArray_run f w :
  readJsonArray f w = (Returned (rowsIn (files w) f), after (files w) [EvRead f] w).
Proof.
  unfold readJsonArray, tryCatch, bind, fs_readFile, rowsIn, after.
  destruct (content (files w) f) as [[|[rows| |h]]|]; reflexivity.
Qed.

Lemma writeJsonArray_run f rows w :
  writeJsonArray f rows w
  = (Returned tt, after (rewritten (files w) f rows) [EvWrite f] w).
Proof. reflexivity. Qed.

Lemma rowsIn_rewritten d f rows : rowsIn (rewritten d f rows) f = rows.
Proof. destruct f; reflexivity. Qed.

Lemma rowsIn_rewritten_other d f g rows :
  f <> g -> rowsIn (rewritten d f rows) g = rowsIn d g.
Proof. destruct f, g; intros H; try reflexivity; now contradict H. Qed.

Lemma content_rewritten_other d f g rows :
  f <> g -> content (rewritten d f rows) g = content d g.
Proof. destruct f, g; intros H; try reflexivity; now contradict H. Qed.

Lemma findEmployee_run id w :
  findEmployee id w
  = (Returned (List.find (fun e => JsString.eqb (Employee.employeeId e) id)
                 (employees (files w))),
     after (files w) [EvRead EMPLOYEES_FILE] w).
Proof. unfold findEmployee. erewrite bind_returned by apply readJsonArray_run. reflexivity. Qed.

Lemma findShift_run id w :
  findShift id w
  = (Returned (List.find (fun s => JsString.eqb (Shift.shiftId s) id)
                 (shifts (files w))),
     after (files w) [EvRead SHIFTS_FILE] w).
Proof. unfold findShift. erewrite bind_returned by apply readJsonArray_run. reflexivity. Qed.

Lemma findAssignment_run e s w :
  findAssignment e s w
  = (Returned (List.find (isPair e s) (assignments (files w))),
     after (files w) [EvRead ASSIGNMENTS_FILE] w).
Proof. unfold findAssignment. erewrite bind_returned by apply readJsonArray_run. reflexivity. Qed.

Lemma getAssignmentsByEmployee_run e w :
  getAssignmentsByEmployee e w
  = (Returned (List.filter (fun a => JsString.eqb (Assignment.employeeId a) e)
                 (assignments (files w))),
     after (files w) [EvRead ASSIGNMENTS_FILE] w).
Proof.
  unfold getAssignmentsByEmployee. erewrite bind_returned by apply readJsonArray_run.
  reflexivity.
Qed.

Lemma addEmployee_run e w :
  addEmployee e w
  = (Returned tt,
     after (rewritten (files w) EMPLOYEES_FILE (employees (files w) ++ [e]))
       [EvRead EMPLOYEES_FILE; EvWrite EMPLOYEES_FILE] w).
Proof.
  unfold addEmployee. erewrite bind_returned by apply readJsonArray_run.
  rewrite writeJsonArray_run. unfold after; simpl. now rewrite <- app_assoc.
Qed.

Lemma addAssignment_run a w :
  addAssignment a w
  = (Returned tt,
     after (rewritten (files w) ASSIGNMENTS_FILE (assignments (files w) ++ [a]))
       [EvRead ASSIGNMENTS_FILE; EvWrite ASSIGNMENTS_FILE] w).
Proof.
  unfold addAssignment. erewrite bind_returned by apply readJsonArray_run.
  rewrite writeJsonArray_run. unfold after; simpl. now rewrite <- app_assoc.
Qed.

Lemma after_after d d' calls calls' w :
  after d' calls' (after d calls w) = after d' (calls ++ calls') w.
Proof. unfold after; simpl. now rewrite app_assoc. Qed.

Lemma after_nil w : after (files w) [] w = w.
Proof. destruct w; unfold after; simpl. now rewrite app_nil_r. Qed.

Lemma find_none_existsb {A} (p : A -> bool) l :
  List.find p l = None <-> existsb p l = false.
Proof.
  induction l as [|x l IH]; simpl; [tauto|].
  destruct (p x); simpl; [split; discriminate | exact IH].
Qed.

Lemma find_some_existsb {A} (p : A -> bool) l x :
  List.find p l = Some x -> existsb p l = true.
Proof.
  intros H. destruct (existsb p l) eqn:E; [reflexivity|].
  apply find_none_existsb in E. congruence.
Qed.

End Runs.

(** ** Shift assignment *)

Section ShiftAssignment.

(** What a call of [assignEmployeeToShift] returns and leaves behind, the
    file-system calls it made included. *)
Lemma assignEmployeeToShift_run employeeId shiftId w :
  let empId := trim employeeId in
  let shId := trim shiftId in
  let d := files w in
  assignEmployeeToShift employeeId shiftId w =
    if isEmpty empId || isEmpty shId then
      (Returned (reply false "Invalid input."), w)
    else if negb (employeeExists d empId) then
      (Returned (reply false "Employee does not exist"),
       after d [EvRead EMPLOYEES_FILE] w)
    else if negb (shiftExists d shId) then
      (Returned (reply false "Shift does not exist"),
       after d [EvRead EMPLOYEES_FILE; EvRead SHIFTS_FILE] w)
    else if isAssigned d empId shId then
      (Returned (reply false "Employee already assigned to shift"),
       after d [EvRead EMPLOYEES_FILE; EvRead SHIFTS_FILE; EvRead ASSIGNMENTS_FILE] w)
    else
      (Returned (reply true "Shift Recorded"),
       after
         (rewritten d ASSIGNMENTS_FILE
            (assignments d
               ++ [{| Assignment.employeeId := empId; Assignment.shiftId := shId |}]))
         [EvRead EMPLOYEES_FILE; EvRead SHIFTS_FILE; EvRead ASSIGNMENTS_FILE;
          EvRead ASSIGNMENTS_FILE; EvWrite ASSIGNMENTS_FILE] w).
Proof.
  intros empId shId d. unfold assignEmployeeToShift. fold empId shId.
  destruct (isEmpty empId || isEmpty shId); [reflexivity|].
  erewrite bind_returned by apply findEmployee_run. fold d.
  unfold employeeExists.
  destruct (List.find _ (employees d)) as [e|] eqn:He.
  2:{ apply find_none_existsb in He. now rewrite He. }
  rewrite (find_some_existsb _ _ _ He). cbn [negb].
  erewrite bind_returned by apply findShift_run. cbn [files after].
  unfold shiftExists.
  destruct (List.find _ (shifts d)) as [s|] eqn:Hs.
  2:{ apply find_none_existsb in Hs. rewrite Hs. cbn [negb].
      unfold ret. now rewrite after_after. }
  rewrite (find_some_existsb _ _ _ Hs). cbn [negb].
  erewrite bind_returned by apply findAssignment_run. cbn [files after].
  unfold isAssigned.
  destruct (List.find _ (assignments d)) as [a|] eqn:Ha.
  - rewrite (find_some_existsb _ _ _ Ha). unfold ret. now rewrite !after_after.
  - apply find_none_existsb in Ha. rewrite Ha.
    erewrite bind_returned by apply addAssignment_run.
    unfold ret. cbn [files after]. now rewrite !after_after.
Qed.

(** C1.  For every pair of input strings and every world,
    [assignEmployeeToShift] stops at the first failing check, in this order,
    and returns exactly one reply: "Invalid input." when a trimmed id is
    empty; else "Employee does not exist" when no employee of the store has
    the trimmed employee id, whether the shift exists or not; else "Shift
    does not exist" when no shift has the trimmed shift id; else "Employee
    already assigned to shift" when the pair is already recorded; and
    otherwise it appends exactly one new assignment, the trimmed pair, and
    replies "Shift Recorded".  It never throws, and every failing path
    leaves the disk as it was. *)
Theorem assignEmployeeToShift_checks_in_order employeeId shiftId w :
  let empId := trim employeeId in
  let shId := trim shiftId in
  let d := files w in
  let run := assignEmployeeToShift employeeId shiftId w in
  (fst run, files (snd run)) =
    if isEmpty empId || isEmpty shId then
      (Returned (reply false "Invalid input."), d)
    else if negb (employeeExists d empId) then
      (Returned (reply false "Employee does not exist"), d)
    else if negb (shiftExists d shId) then
      (Returned (reply false "Shift does not exist"), d)
    else if isAssigned d empId shId then
      (Returned (reply false "Employee already assigned to shift"), d)
    else
      (Returned (reply true "Shift Recorded"),
       rewritten d ASSIGNMENTS_FILE
         (assignments d
            ++ [{| Assignment.employeeId := empId; Assignment.shiftId := shId |}])).
Proof.
  intros empId shId d run. subst run.
  rewrite assignEmployeeToShift_run. fold empId shId d.
  destruct (isEmpty empId || isEmpty shId); [reflexivity|].
  destruct (employeeExists d empId); [|reflexivity].
  destruct (shiftExists d shId); [|reflexivity].
  destruct (isAssigned d empId shId); reflexivity.
Qed.

End ShiftAssignment.

(** ** Employee registration and schedule retrieval: what each call does *)

Section Operations.

Lemma getAllEmployees_run w :
  getAllEmployees w
  = (Returned (employees (files w)), after (files w) [EvRead EMPLOYEES_FILE] w).
Proof. exact (readJsonArray_run EMPLOYEES_FILE w). Qed.

(** What a call of [addNewEmployee] returns and leaves behind. *)
Lemma addNewEmployee_run name phone w :
  let n := trim name in
  let p := trim phone in
  let d := files w in
  addNewEmployee name phone w =
    if isEmpty n || isEmpty p then
      (Returned (reply false "Invalid input."), w)
    else
      (Returned (reply true "Employee added..."),
       after
         (rewritten d EMPLOYEES_FILE
            (employees d
               ++ [{| Employee.employeeId := getNextEmployeeId (employees d);
                      Employee.name := n;
                      Employee.phone := p |}]))
         [EvRead EMPLOYEES_FILE; EvRead EMPLOYEES_FILE; EvWrite EMPLOYEES_FILE] w).
Proof.
  intros n p d. unfold addNewEmployee. fold n p.
  destruct (isEmpty n || isEmpty p); [reflexivity|].
  erewrite bind_returned by apply getAllEmployees_run.
  erewrite bind_returned by apply addEmployee_run.
  unfold ret. cbn [files after]. now rewrite !after_after.
Qed.

Lemma collectShifts_run d (asg : list Assignment.t) : forall rows w,
  files w = d ->
  collectShifts asg rows w
  = (Returned
       (rows
          ++ flat_map
               (fun a =>
                  match List.find
                          (fun s => JsString.eqb (Shift.shiftId s) (Assignment.shiftId a))
                          (shifts d) with
                  | Some s => [s]
                  | None => []
                  end) asg),
     after d (List.repeat (EvRead SHIFTS_FILE) (length asg)) w).
Proof.
  induction asg as [|a asg IH]; intros rows w Hd; subst d.
  - simpl. unfold ret. now rewrite app_nil_r, after_nil.
  - cbn [collectShifts]. erewrite bind_returned by apply findShift_run.
    destruct (List.find _ (shifts (files w))) as [s|] eqn:Hs.
    + rewrite IH by reflexivity. cbn [files after flat_map length List.repeat].
      rewrite Hs, after_after. now rewrite <- app_assoc.
    + rewrite IH by reflexivity. cbn [files after flat_map length List.repeat].
      now rewrite Hs, after_after.
Qed.

(** What a call of [getEmployeeSchedule] returns and leaves behind. *)
Lemma getEmployeeSchedule_run employeeId w :
  let empId := trim employeeId in
  let d := files w in
  getEmployeeSchedule employeeId w =
    if negb (employeeExists d empId) then
      (Returned {| ok := false; message := Some (lit ""); rows := None |},
       after d [EvRead EMPLOYEES_FILE] w)
    else
      (Returned {| ok := true; message := None;
                   rows := Some (sortShifts (resolvedShifts d empId)) |},
       after d
         ([EvRead EMPLOYEES_FILE; EvRead ASSIGNMENTS_FILE]
            ++ List.repeat (EvRead SHIFTS_FILE)
                 (length (List.filter
                            (fun a => JsString.eqb (Assignment.employeeId a) empId)
                            (assignments d)))) w).
Proof.
  intros empId d. unfold getEmployeeSchedule. fold empId.
  erewrite bind_returned by apply findEmployee_run. fold d.
  unfold employeeExists.
  destruct (List.find _ (employees d)) as [e|] eqn:He.
  2:{ apply find_none_existsb in He. now rewrite He. }
  rewrite (find_some_existsb _ _ _ He). cbn [negb].
  erewrite bind_returned by apply getAssignmentsByEmployee_run.
  erewrite bind_returned by (apply (collectShifts_run d); reflexivity).
  unfold ret. cbn [files after app]. now rewrite !after_after.
Qed.

End Operations.

(** ** The order on strings *)

Section StringOrder.

Lemma compare_refl s : JsString.compare s s = Eq.
Proof. induction s as [|c s IH]; simpl; [reflexivity|]. now rewrite N.compare_refl. Qed.

Lemma compare_eq s : forall t, JsString.compare s t = Eq -> s = t.
Proof.
  induction s as [|c s IH]; intros [|d t]; simpl; try discriminate; [reflexivity|].
  destruct (c ?= d)%N eqn:E; try discriminate.
  apply N.compare_eq in E. intros H. f_equal; [exact E | now apply IH].
Qed.

Lemma compare_antisym s : forall t,
  JsString.compare t s = CompOpp (JsString.compare s t).
Proof.
  induction s as [|c s IH]; intros [|d t]; simpl; try reflexivity.
  rewrite (N.compare_antisym c d).
  destruct (c ?= d)%N; simpl; try reflexivity. apply IH.
Qed.

Lemma compare_lt_trans s : forall t u,
  JsString.compare s t = Lt -> JsString.compare t u = Lt -> JsString.compare s u = Lt.
Proof.
  induction s as [|c s IH]; intros [|d t] [|e u]; simpl; try discriminate; try reflexivity.
  destruct (c ?= d)%N eqn:Ecd; try discriminate;
    destruct (d ?= e)%N eqn:Ede; try discriminate; intros H1 H2.
  - apply N.compare_eq in Ecd, Ede. subst. rewrite N.compare_refl. eauto.
  - apply N.compare_eq in Ecd. subst. now rewrite Ede.
  - apply N.compare_eq in Ede. subst. now rewrite Ecd.
  - rewrite N.compare_lt_iff in Ecd, Ede.
    assert (c < e)%N as Hce by lia. apply N.compare_lt_iff in Hce. now rewrite Hce.
Qed.

Lemma le_refl s : JsString.le s s.
Proof. unfold JsString.le. now rewrite compare_refl. Qed.

Lemma le_trans s t u : JsString.le s t -> JsString.le t u -> JsString.le s u.
Proof.
  unfold JsString.le. intros H1 H2.
  destruct (JsString.compare s t) eqn:E1; [| |congruence].
  - apply compare_eq in E1. now subst.
  - destruct (JsString.compare t u) eqn:E2; [| |congruence].
    + apply compare_eq in E2. subst. now rewrite E1.
    + now rewrite (compare_lt_trans _ _ _ E1 E2).
Qed.

Lemma not_gtb_le s t : JsString.gtb s t = false -> JsString.le s t.
Proof. unfold JsString.gtb, JsString.le. destruct (JsString.compare s t); congruence. Qed.

Lemma gtb_le s t : JsString.gtb s t = true -> JsString.le t s.
Proof.
  unfold JsString.gtb, JsString.le. rewrite (compare_antisym s t).
  destruct (JsString.compare s t); simpl; congruence.
Qed.

Lemma gtb_neq s t : JsString.gtb s t = true -> s <> t.
Proof.
  unfold JsString.gtb. intros H ->. now rewrite compare_refl in H.
Qed.

Lemma le_not_gtb s t : JsString.le s t -> JsString.gtb s t = false.
Proof. unfold JsString.gtb, JsString.le. destruct (JsString.compare s t); congruence. Qed.

End StringOrder.

(** ** The exchange sort of [sortShifts] *)

Section Sorting.

Implicit Types (x y m : Shift.t) (l pre tail : list Shift.t).

Lemma keyLe_refl x : keyLe x x.
Proof. apply le_refl. Qed.

Lemma keyLe_trans x y m : keyLe x y -> keyLe y m -> keyLe x m.
Proof. apply le_trans. Qed.

(** The loop body at the index right after [pre]. *)
Lemma exchange_at pre x y l :
  exchange (pre ++ x :: y :: l) (length pre)
  = pre ++ (if JsString.gtb (sortKey x) (sortKey y) then y :: x :: l else x :: y :: l).
Proof.
  unfold exchange.
  rewrite (list_lookup_middle pre (y :: l) x (length pre) eq_refl).
  replace (pre ++ x :: y :: l) with ((pre ++ [x]) ++ y :: l) at 1
    by now rewrite <- app_assoc.
  rewrite (list_lookup_middle (pre ++ [x]) l y (length pre + 1)%nat)
    by (rewrite length_app; simpl; lia).
  destruct (JsString.gtb (sortKey x) (sortKey y)); [|reflexivity].
  rewrite (insert_app_r_alt pre (x :: y :: l) (length pre)) by lia.
  rewrite Nat.sub_diag. cbn [insert list_insert].
  rewrite (insert_app_r_alt pre (y :: y :: l) (length pre + 1)%nat) by lia.
  replace (length pre + 1 - length pre)%nat with 1%nat by lia.
  reflexivity.
Qed.

(** The inner loop from index [length pre] on is [bubble]. *)
Lemma innerLoop_from l : forall pre x,
  fold_left exchange (seq (length pre) (length l)) (pre ++ x :: l)
  = pre ++ bubble x l.
Proof.
  induction l as [|y l IH]; intros pre x; [reflexivity|].
  cbn [length seq fold_left bubble]. rewrite exchange_at.
  destruct (JsString.gtb (sortKey x) (sortKey y)).
  - replace (pre ++ y :: x :: l) with ((pre ++ [y]) ++ x :: l)
      by now rewrite <- app_assoc.
    replace (S (length pre)) with (length (pre ++ [y]))
      by (rewrite length_app; simpl; lia).
    rewrite IH. now rewrite <- app_assoc.
  - replace (pre ++ x :: y :: l) with ((pre ++ [x]) ++ y :: l)
      by now rewrite <- app_assoc.
    replace (S (length pre)) with (length (pre ++ [x]))
      by (rewrite length_app; simpl; lia).
    rewrite IH. now rewrite <- app_assoc.
Qed.

Lemma innerLoop_pass l : innerLoop l = pass l.
Proof.
  unfold innerLoop. destruct l as [|x l]; [reflexivity|].
  replace (length (x :: l) - 1)%nat with (length l) by (simpl; lia).
  exact (innerLoop_from l [] x).
Qed.

Lemma bubble_length l : forall x, length (bubble x l) = S (length l).
Proof.
  induction l as [|y l IH]; intros x; simpl; [reflexivity|].
  destruct (JsString.gtb _ _); simpl; now rewrite IH.
Qed.

Lemma bubble_perm l : forall x, Permutation (x :: l) (bubble x l).
Proof.
  induction l as [|y l IH]; intros x; simpl; [reflexivity|].
  destruct (JsString.gtb _ _).
  - rewrite perm_swap. now apply perm_skip.
  - now apply perm_skip.
Qed.

(** An exchange never crosses two rows of one key. *)
Lemma bubble_withKey k l : forall x, withKey k (bubble x l) = withKey k (x :: l).
Proof.
  induction l as [|y l IH]; intros x; [reflexivity|].
  cbn [bubble]. destruct (JsString.gtb (sortKey x) (sortKey y)) eqn:G.
  - unfold withKey in *. cbn [List.filter]. rewrite IH. cbn [List.filter].
    apply gtb_neq in G. unfold JsString.eqb.
    destruct (bool_decide (sortKey x = k)) eqn:Ex, (bool_decide (sortKey y = k)) eqn:Ey;
      try reflexivity.
    apply bool_decide_eq_true in Ex, Ey. congruence.
  - unfold withKey in *. cbn [List.filter]. now rewrite IH.
Qed.

(** A pass carries a greatest row to the end. *)
Lemma bubble_last l : forall x,
  exists init m,
    bubble x l = init ++ [m] /\ keyLe x m /\ Forall (fun z => keyLe z m) init.
Proof.
  induction l as [|y l IH]; intros x.
  - exists [], x. repeat split; [apply keyLe_refl | constructor].
  - cbn [bubble]. destruct (JsString.gtb (sortKey x) (sortKey y)) eqn:G.
    + destruct (IH x) as (init & m & E & Hx & Hi).
      exists (y :: init), m. rewrite E. repeat split; [exact Hx|].
      constructor; [|exact Hi].
      apply keyLe_trans with x; [now apply gtb_le | exact Hx].
    + destruct (IH y) as (init & m & E & Hy & Hi).
      assert (keyLe x m) as Hx
        by (apply keyLe_trans with y; [now apply not_gtb_le | exact Hy]).
      exists (x :: init), m. rewrite E. repeat split; [exact Hx|].
      now constructor.
Qed.

(** A pass leaves a sorted list alone. *)
Lemma bubble_sorted tail : forall x,
  StronglySorted keyLe (x :: tail) -> bubble x tail = x :: tail.
Proof.
  induction tail as [|t tail IH]; intros x H; [reflexivity|].
  apply StronglySorted_inv in H as [Ht Hx]. cbn [bubble].
  rewrite le_not_gtb by (apply Forall_inv in Hx; exact Hx).
  now rewrite IH.
Qed.

(** A pass does not reach into a sorted tail that dominates the rest. *)
Lemma bubble_app_sorted tail l : forall x,
  StronglySorted keyLe tail ->
  Forall (fun z => Forall (keyLe z) tail) (x :: l) ->
  bubble x (l ++ tail) = bubble x l ++ tail.
Proof.
  induction l as [|y l IH]; intros x Hs Hd.
  - cbn [app bubble]. apply bubble_sorted. constructor; [exact Hs|].
    now apply Forall_inv in Hd.
  - cbn [app bubble]. inversion Hd as [|? ? Hx Hd']; subst.
    inversion Hd' as [|? ? Hy Hl]; subst.
    destruct (JsString.gtb (sortKey x) (sortKey y)); cbn [app]; f_equal;
      apply IH; auto.
Qed.

End Sorting.

Section SortingContract.

Implicit Types (x y m : Shift.t) (l pre tail : list Shift.t).

Lemma pass_sorted tail : StronglySorted keyLe tail -> pass tail = tail.
Proof. destruct tail as [|t tail]; [reflexivity|]. apply bubble_sorted. Qed.

Lemma pass_withKey k l : withKey k (pass l) = withKey k l.
Proof. destruct l as [|x l]; [reflexivity|]. apply bubble_withKey. Qed.

Lemma pass_perm l : Permutation l (pass l).
Proof. destruct l as [|x l]; [reflexivity|]. apply bubble_perm. Qed.

(** [n] runs of the inner loop sort the first [n] rows into place, when the
    rows after them are sorted already and dominate them: each run extends
    the sorted tail by one row. *)
Lemma passes_sort n : forall (a : nat) l tail,
  (length l <= n)%nat ->
  StronglySorted keyLe tail ->
  Forall (fun z => Forall (keyLe z) tail) l ->
  exists l',
    Permutation l l'
    /\ StronglySorted keyLe (l' ++ tail)
    /\ fold_left (fun rows (_ : nat) => innerLoop rows) (seq a n) (l ++ tail)
       = l' ++ tail.
Proof.
  induction n as [|n IH]; intros a l tail Hn Hs Hd.
  - destruct l; [|simpl in Hn; lia]. exists []. now repeat split.
  - cbn [seq fold_left]. rewrite innerLoop_pass. destruct l as [|x l].
    + cbn [app]. rewrite pass_sorted by exact Hs.
      apply (IH (S a) [] tail); [simpl; lia | exact Hs | constructor].
    + cbn [app pass]. rewrite bubble_app_sorted by assumption.
      destruct (bubble_last l x) as (init & m & E & Hx & Hi).
      pose proof (bubble_perm l x) as Hp. pose proof (bubble_length l x) as Hl.
      rewrite E in Hp, Hl |- *.
      pose proof (Permutation_Forall Hp Hd) as Hd'.
      apply Forall_app in Hd' as [Hdi Hdm]. apply Forall_inv in Hdm.
      rewrite <- app_assoc. cbn [app].
      destruct (IH (S a) init (m :: tail)) as (l'' & Hp'' & Hs'' & Hf).
      * rewrite length_app in Hl. simpl in Hl, Hn. lia.
      * now constructor.
      * clear - Hi Hdi. induction Hi as [|z init Hz Hi IHi]; [constructor|].
        inversion Hdi; subst. constructor; [now constructor | now apply IHi].
      * exists (l'' ++ [m]). rewrite <- app_assoc. cbn [app]. repeat split.
        -- rewrite Hp. now apply Permutation_app_tail.
        -- exact Hs''.
        -- exact Hf.
Qed.

Lemma passes_withKey k n : forall (a : nat) l,
  withKey k (fold_left (fun rows (_ : nat) => innerLoop rows) (seq a n) l)
  = withKey k l.
Proof.
  induction n as [|n IH]; intros a l; [reflexivity|].
  cbn [seq fold_left]. now rewrite IH, innerLoop_pass, pass_withKey.
Qed.

(** [sortShifts] meets the ordering contract. *)
Lemma sortShifts_contract rows : stableSortOf rows (sortShifts rows).
Proof.
  unfold stableSortOf, sortShifts.
  destruct (passes_sort (length rows) 0%nat rows [])
    as (l' & Hp & Hs & Hf); [lia | constructor | |].
  { clear. induction rows; now repeat constructor. }
  rewrite !app_nil_r in Hf. rewrite app_nil_r in Hs. rewrite Hf. repeat split; [exact Hp | exact Hs |].
  intros k. rewrite <- Hf. apply passes_withKey.
Qed.

(** The contract leaves no choice: two lists that meet it for one input are
    the same list. *)
Lemma stableSortOf_once input : forall out1 out2,
  stableSortOf input out1 -> stableSortOf input out2 -> out1 = out2.
Proof.
  intros out1 out2 (P1 & S1 & K1) (P2 & S2 & K2).
  assert (Permutation out1 out2) as P by (now rewrite <- P1).
  assert (forall k, withKey k out1 = withKey k out2) as K
    by (intros k; now rewrite K1, K2).
  clear - P S1 S2 K. revert out2 P S2 K.
  induction S1 as [|x l1 S1 IH F1]; intros out2 P S2 K.
  - now apply Permutation_nil in P.
  - destruct out2 as [|y l2]; [now apply Permutation_sym, Permutation_nil in P|].
    apply StronglySorted_inv in S2 as [S2 F2].
    assert (sortKey x = sortKey y) as Exy.
    { assert (keyLe x y) as Hxy.
      { assert (In y (x :: l1)) as Hy
          by (eapply Permutation_in; [symmetry; exact P | now left]).
        destruct Hy as [->|Hy]; [apply keyLe_refl|].
        rewrite List.Forall_forall in F1. now apply F1. }
      assert (keyLe y x) as Hyx.
      { assert (In x (y :: l2)) as Hx
          by (eapply Permutation_in; [exact P | now left]).
        destruct Hx as [->|Hx]; [apply keyLe_refl|].
        rewrite List.Forall_forall in F2. now apply F2. }
      unfold keyLe, JsString.le in Hxy, Hyx.
      rewrite (compare_antisym (sortKey x) (sortKey y)) in Hyx.
      destruct (JsString.compare (sortKey x) (sortKey y)) eqn:E;
        [now apply compare_eq in E | now simpl in Hyx | congruence]. }
    assert (x = y) as ->.
    { specialize (K (sortKey x)). unfold withKey in K. cbn [List.filter] in K.
      unfold JsString.eqb in K.
      rewrite bool_decide_eq_true_2 in K by reflexivity.
      rewrite bool_decide_eq_true_2 in K by (now symmetry).
      congruence. }
    f_equal. apply IH.
    + now apply Permutation_cons_inv in P.
    + exact S2.
    + intros k. specialize (K k). unfold withKey in *. cbn [List.filter] in K.
      destruct (JsString.eqb (sortKey y) k); congruence.
Qed.

End SortingContract.

(** ** Registration, retrieval and ordering: the claims *)

Section RegistrationAndSchedule.

(** C7.  For every pair of input strings and every world: when either input
    is empty after trimming, [addNewEmployee] replies "Invalid input." and
    leaves the world exactly as it found it (no file is written, none is
    even read); otherwise it appends exactly one employee row, built from
    the generated next id and the two trimmed inputs, and replies "Employee
    added...", its one write being to the employees file. *)
Theorem addNewEmployee_validates_then_appends name phone w :
  let n := trim name in
  let p := trim phone in
  let d := files w in
  let run := addNewEmployee name phone w in
  if isEmpty n || isEmpty p then
    run = (Returned (reply false "Invalid input."), w)
  else
    fst run = Returned (reply true "Employee added...")
    /\ employees (files (snd run))
       = employees d
           ++ [{| Employee.employeeId := getNextEmployeeId (employees d);
                  Employee.name := n;
                  Employee.phone := p |}]
    /\ exists calls,
         trace (snd run) = trace w ++ calls /\ writes calls = [EMPLOYEES_FILE].
Proof.
  intros n p d run. subst run. rewrite addNewEmployee_run. fold n p d.
  destruct (isEmpty n || isEmpty p); [reflexivity|].
  cbn [fst snd files after trace].
  split; [reflexivity|]. split; [reflexivity|].
  eexists. split; reflexivity.
Qed.

(** C5.  For every list of shift rows, [sortShifts] returns a permutation of
    the list, ascending by the code-unit order of [date + startTime] (the
    strings as they are, nothing parsed), and stable: the rows of any one
    key stand in the order the input has them.  The rows dated and timed
    (2024-01-02, 08:00), (2024-01-01, 09:00), (2024-01-01, 08:00) come out
    reversed, whatever their ids and end times. *)
Theorem sortShifts_stable_ascending :
  (forall rows,
      Permutation rows (sortShifts rows)
      /\ StronglySorted keyLe (sortShifts rows)
      /\ forall k, withKey k (sortShifts rows) = withKey k rows)
  /\ (forall id1 id2 id3 end1 end2 end3,
        let a := {| Shift.shiftId := id1; Shift.date := lit "2024-01-02";
                    Shift.startTime := lit "08:00"; Shift.endTime := end1 |} in
        let b := {| Shift.shiftId := id2; Shift.date := lit "2024-01-01";
                    Shift.startTime := lit "09:00"; Shift.endTime := end2 |} in
        let c := {| Shift.shiftId := id3; Shift.date := lit "2024-01-01";
                    Shift.startTime := lit "08:00"; Shift.endTime := end3 |} in
        sortShifts [a; b; c] = [c; b; a]).
Proof.
  split.
  - intros rows. exact (sortShifts_contract rows).
  - intros id1 id2 id3 end1 end2 end3 a b c.
    subst a b c. reflexivity.
Qed.

(** C4.  For every world and input id: when no employee has the trimmed id,
    [getEmployeeSchedule] returns [ok: false]; otherwise it returns
    [ok: true] with the rows that meet the ordering contract for the list of
    shifts the employee's assignments resolve to, an assignment whose shift
    id matches no stored shift being dropped without an error.  Either way
    it does not throw and leaves the disk as it was. *)
Theorem getEmployeeSchedule_resolves_and_sorts employeeId w :
  let empId := trim employeeId in
  let d := files w in
  let run := getEmployeeSchedule employeeId w in
  files (snd run) = d
  /\ if employeeExists d empId then
       exists sorted,
         fst run = Returned {| ok := true; message := None; rows := Some sorted |}
         /\ stableSortOf (resolvedShifts d empId) sorted
     else
       fst run = Returned {| ok := false; message := Some (lit ""); rows := None |}.
Proof.
  intros empId d run. subst run. rewrite getEmployeeSchedule_run. fold empId d.
  destruct (employeeExists d empId); cbn [negb fst snd files after].
  - split; [reflexivity|]. eexists. split; [reflexivity|]. apply sortShifts_contract.
  - now split.
Qed.

End RegistrationAndSchedule.

(** ** What the operations depend on, and what they touch *)

Section Frames.

(** [getMaxDailyHours] never throws, and answers [9] unless [config.json]
    holds a value whose [maxDailyHours] is a positive number. *)
Lemma getMaxDailyHours_run w :
  getMaxDailyHours w
  = (Returned
       match content (files w) CONFIG_FILE with
       | Some (Encodes (JOther hours)) => if notPositive hours then ofZ 9 else hours
       | _ => ofZ 9
       end,
     after (files w) [EvRead CONFIG_FILE] w).
Proof.
  unfold getMaxDailyHours, tryCatch, bind, fs_readFile, after.
  destruct (content (files w) CONFIG_FILE) as [[|[rows| |h]]|]; try reflexivity.
  cbn. now destruct (notPositive h).
Qed.

Lemma getEmployees_run w :
  getEmployees w
  = (Returned (employees (files w)), after (files w) [EvRead EMPLOYEES_FILE] w).
Proof. exact (readJsonArray_run EMPLOYEES_FILE w). Qed.

Lemma sameCollections_refl d : sameCollections d d.
Proof. now repeat split. Qed.

Lemma sameCollections_rewritten d d' f rows :
  sameCollections d d' -> sameCollections (rewritten d f rows) (rewritten d' f rows).
Proof.
  intros (E & S & A). unfold sameCollections, employees, shifts, assignments in *.
  destruct f; cbn; auto.
Qed.

(** An unreadable file reads as the empty array does. *)
Lemma unreadable_emptied f w :
  unreadable (content (files w) f) ->
  sameCollections (files w) (files (emptied f w)).
Proof.
  intros H. unfold sameCollections, employees, shifts, assignments, rowsIn, emptied.
  destruct w as [d tr]. cbn [files] in *.
  destruct f; cbn in *; unfold unreadable in H; repeat split; try reflexivity;
    match type of H with
    | match ?c with _ => _ end => destruct c as [[|[?| |?]]|]
    end; try contradiction; reflexivity.
Qed.

(** The operations see the disk through the three collections only. *)
Lemma addNewEmployee_collections name phone w1 w2 :
  trace w1 = trace w2 -> sameCollections (files w1) (files w2) ->
  sameOutcome (addNewEmployee name phone w1) (addNewEmployee name phone w2).
Proof.
  intros T (E & S & A). unfold sameOutcome. rewrite !addNewEmployee_run. rewrite E.
  destruct (isEmpty (trim name) || isEmpty (trim phone));
    cbn [fst snd files after trace]; rewrite T; same_outcome sameCollections_rewritten.
Qed.

Lemma assignEmployeeToShift_collections e s w1 w2 :
  trace w1 = trace w2 -> sameCollections (files w1) (files w2) ->
  sameOutcome (assignEmployeeToShift e s w1) (assignEmployeeToShift e s w2).
Proof.
  intros T (E & S & A). unfold sameOutcome. rewrite !assignEmployeeToShift_run.
  unfold employeeExists, shiftExists, isAssigned. rewrite E, S, A.
  repeat match goal with
         | |- context [if ?c then _ else _] => destruct c
         end; cbn [fst snd files after trace]; rewrite T; same_outcome sameCollections_rewritten.
Qed.

Lemma getEmployeeSchedule_collections e w1 w2 :
  trace w1 = trace w2 -> sameCollections (files w1) (files w2) ->
  sameOutcome (getEmployeeSchedule e w1) (getEmployeeSchedule e w2).
Proof.
  intros T (E & S & A). unfold sameOutcome. rewrite !getEmployeeSchedule_run.
  unfold employeeExists, resolvedShifts. rewrite E, S, A.
  destruct (negb _); cbn [fst snd files after trace]; rewrite T; same_outcome sameCollections_rewritten.
Qed.

Lemma getEmployees_collections w1 w2 :
  trace w1 = trace w2 -> sameCollections (files w1) (files w2) ->
  sameOutcome (getEmployees w1) (getEmployees w2).
Proof.
  intros T (E & S & A). unfold sameOutcome. rewrite !getEmployees_run. rewrite E.
  cbn [fst snd files after trace]. rewrite T. same_outcome sameCollections_rewritten.
Qed.

Lemma writes_reads n f : writes (List.repeat (EvRead f) n) = [].
Proof. induction n; simpl; auto. Qed.

Lemma content_store_other d f g c : f <> g -> content (store d f c) g = content d g.
Proof. destruct f, g; intros H; try reflexivity; now contradict H. Qed.

End Frames.

Section FrameClaims.

Lemma writes_app calls calls' : writes (calls ++ calls') = writes calls ++ writes calls'.
Proof. unfold writes. apply flat_map_app. Qed.

(** C10.  Each operation writes only its own collection, in every world and
    for every input: [addNewEmployee] writes no file but the employees'
    and leaves every other file as it was (shifts, assignments and
    configuration included); [assignEmployeeToShift] does the same with the
    assignments' file; [getEmployeeSchedule] writes nothing and leaves the
    whole disk as it was. *)
Theorem operations_write_only_their_collection w :
  (forall name phone,
      writesOnly [EMPLOYEES_FILE] w (snd (addNewEmployee name phone w)))
  /\ (forall employeeId shiftId,
        writesOnly [ASSIGNMENTS_FILE] w (snd (assignEmployeeToShift employeeId shiftId w)))
  /\ (forall employeeId,
        writesOnly [] w (snd (getEmployeeSchedule employeeId w))
        /\ files (snd (getEmployeeSchedule employeeId w)) = files w).
Proof.
  split; [|split].
  - intros name phone. rewrite addNewEmployee_run.
    destruct (isEmpty (trim name) || isEmpty (trim phone)); cbn [snd].
    + split; [exists []; split; [now rewrite app_nil_r | intros f []] | reflexivity].
    + split.
      * eexists. split; [reflexivity|]. cbn. tauto.
      * intros f Hf. cbn [files after]. apply content_rewritten_other.
        intros <-. apply Hf. now left.
  - intros e s. rewrite assignEmployeeToShift_run.
    repeat match goal with
           | |- context [if ?c then _ else _] => destruct c
           end; cbn [snd].
    1: split; [exists []; split; [now rewrite app_nil_r | intros f []] | reflexivity].
    1-3: split; [eexists; split; [reflexivity | cbn; tauto] | reflexivity].
    split.
    + eexists. split; [reflexivity|]. cbn. tauto.
    + intros f Hf. cbn [files after]. apply content_rewritten_other.
      intros <-. apply Hf. now left.
  - intros e. rewrite getEmployeeSchedule_run.
    destruct (negb _); cbn [snd files after]; (split; [|reflexivity]).
    + split; [eexists; split; [reflexivity | cbn; tauto] | reflexivity].
    + split; [|reflexivity]. eexists. split; [reflexivity|].
      rewrite writes_app, writes_reads. cbn. tauto.
Qed.

Lemma addNewEmployee_withConfig c name phone w :
  addNewEmployee name phone (withConfig c w)
  = (fst (addNewEmployee name phone w), withConfig c (snd (addNewEmployee name phone w))).
Proof.
  rewrite !addNewEmployee_run.
  change (employees (files (withConfig c w))) with (employees (files w)).
  destruct (isEmpty (trim name) || isEmpty (trim phone)); reflexivity.
Qed.

Lemma assignEmployeeToShift_withConfig c e s w :
  assignEmployeeToShift e s (withConfig c w)
  = (fst (assignEmployeeToShift e s w), withConfig c (snd (assignEmployeeToShift e s w))).
Proof.
  rewrite !assignEmployeeToShift_run.
  change (employeeExists (files (withConfig c w))) with (employeeExists (files w)).
  change (shiftExists (files (withConfig c w))) with (shiftExists (files w)).
  change (isAssigned (files (withConfig c w))) with (isAssigned (files w)).
  change (assignments (files (withConfig c w))) with (assignments (files w)).
  repeat match goal with
         | |- context [if ?c then _ else _] => destruct c
         end; reflexivity.
Qed.

Lemma getEmployeeSchedule_withConfig c e w :
  getEmployeeSchedule e (withConfig c w)
  = (fst (getEmployeeSchedule e w), withConfig c (snd (getEmployeeSchedule e w))).
Proof.
  rewrite !getEmployeeSchedule_run.
  change (employeeExists (files (withConfig c w))) with (employeeExists (files w)).
  change (resolvedShifts (files (withConfig c w))) with (resolvedShifts (files w)).
  change (assignments (files (withConfig c w))) with (assignments (files w)).
  destruct (negb _); reflexivity.
Qed.

Lemma getEmployees_withConfig c w :
  getEmployees (withConfig c w)
  = (fst (getEmployees w), withConfig c (snd (getEmployees w))).
Proof. rewrite !getEmployees_run. reflexivity. Qed.

Lemma withConfig_sameButConfig {A} (r : outcome A) c1 c2 w :
  sameButConfig (r, withConfig c1 w) (r, withConfig c2 w).
Proof.
  split; [reflexivity|]. split; [reflexivity|].
  intros f Hf. cbn [snd files withConfig].
  rewrite !content_store_other by congruence. reflexivity.
Qed.

(** C9.  The configuration never influences an engine operation.  For any
    two contents [c1], [c2] of [config.json] (absent, garbled, [null], an
    array, or any value with any [maxDailyHours]) and any world otherwise
    the same, [addNewEmployee], [assignEmployeeToShift] and
    [getEmployeeSchedule] on the same inputs return the same result, make
    the same file-system calls and leave the same contents in every other
    file; and each leaves [config.json] holding what it held. *)
Theorem configuration_never_influences c1 c2 w :
  (forall name phone,
      sameButConfig (addNewEmployee name phone (withConfig c1 w))
                    (addNewEmployee name phone (withConfig c2 w)))
  /\ (forall employeeId shiftId,
        sameButConfig (assignEmployeeToShift employeeId shiftId (withConfig c1 w))
                      (assignEmployeeToShift employeeId shiftId (withConfig c2 w)))
  /\ (forall employeeId,
        sameButConfig (getEmployeeSchedule employeeId (withConfig c1 w))
                      (getEmployeeSchedule employeeId (withConfig c2 w)))
  /\ (forall cl, content (files (perform (withConfig c1 w) cl)) CONFIG_FILE = c1).
Proof.
  split; [|split; [|split]].
  - intros name phone. rewrite !addNewEmployee_withConfig. apply withConfig_sameButConfig.
  - intros e s. rewrite !assignEmployeeToShift_withConfig. apply withConfig_sameButConfig.
  - intros e. rewrite !getEmployeeSchedule_withConfig. apply withConfig_sameButConfig.
  - intros [|name phone|e s|e]; cbn [perform].
    + now rewrite getEmployees_withConfig.
    + now rewrite addNewEmployee_withConfig.
    + now rewrite assignEmployeeToShift_withConfig.
    + now rewrite getEmployeeSchedule_withConfig.
Qed.

(** C8.  Reading a collection never throws, whatever the file: when the file
    is missing, is not JSON, or holds a JSON value that is not an array,
    [readJsonArray] returns the empty array; and every engine operation run
    on such a disk returns what it returns, makes the calls it makes and
    leaves the collections it leaves when that file holds the empty array
    instead. *)
Theorem unreadable_collection_reads_as_empty :
  (forall f w,
      unreadable (content (files w) f) ->
      readJsonArray f w = (Returned [], after (files w) [EvRead f] w))
  /\ (forall f w, exists rows w', readJsonArray f w = (Returned rows, w'))
  /\ (forall f w,
        unreadable (content (files w) f) ->
        sameOutcome (getEmployees w) (getEmployees (emptied f w))
        /\ (forall name phone,
              sameOutcome (addNewEmployee name phone w)
                          (addNewEmployee name phone (emptied f w)))
        /\ (forall employeeId shiftId,
              sameOutcome (assignEmployeeToShift employeeId shiftId w)
                          (assignEmployeeToShift employeeId shiftId (emptied f w)))
        /\ (forall employeeId,
              sameOutcome (getEmployeeSchedule employeeId w)
                          (getEmployeeSchedule employeeId (emptied f w)))).
Proof.
  split; [|split].
  - intros f w H. rewrite readJsonArray_run. f_equal. f_equal.
    unfold rowsIn. unfold unreadable in H.
    destruct (content (files w) f) as [[|[rows| |h]]|]; try reflexivity. contradiction.
  - intros f w. rewrite readJsonArray_run. eauto.
  - intros f w H. apply unreadable_emptied in H.
    split; [|split; [|split]]; intros.
    + now apply getEmployees_collections.
    + now apply addNewEmployee_collections.
    + now apply assignEmployeeToShift_collections.
    + now apply getEmployeeSchedule_collections.
Qed.

End FrameClaims.

(** ** The invariant of the assignments *)

Section AssignmentInvariant.






Lemma employeeExists_after_assign d x rows :
  employeeExists (rewritten d ASSIGNMENTS_FILE rows) x = employeeExists d x.
Proof. reflexivity. Qed.




End AssignmentInvariant.

(** ** Binary64 arithmetic on integers, and one step above a value *)

Section NumberFacts.

Lemma scale_nonpos z e : e <= 0 -> scale z e = z.
Proof. intros H. unfold scale. rewrite Z.max_r by lia. simpl. lia. Qed.

Lemma scale_nonneg z e : 0 <= e -> scale z e = z * 2 ^ e.
Proof. intros H. unfold scale. now rewrite Z.max_l by lia. Qed.

Lemma Qred_scaled (z : Z) (p : positive) : Qred (z * Zpos p # p) = inject_Z z.
Proof.
  rewrite <- inject_Z_Qred. apply Qred_complete.
  unfold Qeq, inject_Z. simpl. lia.
Qed.

Lemma roundPos_int (z : positive) : Zpos z <= 2 ^ 53 -> roundPos z 1 = ofZ (Zpos z).
Proof.
  intros Hz. unfold roundPos, floorLog2.
  change (Z.log2 1) with 0. rewrite Z.sub_0_r.
  destruct (Z.log2_spec (Zpos z)) as [Hlo Hhi]; [lia|].
  pose proof (Z.log2_nonneg (Zpos z)) as HL.
  set (L := Z.log2 (Zpos z)) in *.
  assert (L <= 53) as HL53.
  { destruct (Z_le_gt_dec L 53) as [|Hgt]; [assumption|].
    assert (2 ^ 54 <= 2 ^ L) by (apply Z.pow_le_mono_r; lia). lia. }
  rewrite (scale_nonneg 1 L) by lia. rewrite (scale_nonpos (Zpos z) (- L)) by lia.
  rewrite Z.mul_1_l.
  destruct (Z.leb_spec (2 ^ L) (Zpos z)) as [_|]; [|lia].
  rewrite Z.max_l by lia.
  destruct (Z.ltb_spec (L - 52) 0) as [Hneg|Hpos].
  - rewrite (scale_nonneg (Zpos z) (- (L - 52))) by lia.
    rewrite (scale_nonpos 1 (L - 52)) by lia.
    rewrite Z.div_1_r, Z.mod_1_r. change (2 * 0 ?= 1) with Lt. cbv beta iota.
    assert (0 < 2 ^ (- (L - 52))) as Hp by (apply Z.pow_pos_nonneg; lia).
    destruct (2 ^ (- (L - 52))) as [|p|p] eqn:E; try lia.
    cbn [Z.to_pos]. unfold ofZ. f_equal. apply Qred_scaled.
  - assert (L = 52 \/ L = 53) as [->| ->] by lia.
    + cbn [Z.sub Z.opp Z.add Z.pos_sub Z.succ_double Z.pred_double Z.double].
      change (52 - 52) with 0. rewrite (scale_nonpos _ (- 0)) by lia.
      rewrite (scale_nonpos 1 0) by lia.
      rewrite Z.div_1_r, Z.mod_1_r. change (2 * 0 ?= 1) with Lt. cbv beta iota.
      change (2 ^ 0) with 1. rewrite Z.mul_1_r.
      destruct (Z.leb_spec (2 ^ 1024) (Zpos z)) as [Hbig|_]; [|reflexivity].
      assert (2 ^ 53 < 2 ^ 1024) by (apply Z.pow_lt_mono_r; lia). lia.
    + assert (Zpos z = 2 ^ 53) as -> by lia. now vm_compute.
Qed.

Lemma round64_den1 q :
  Qden q = 1%positive -> Z.abs (Qnum q) <= 2 ^ 53 -> round64 q = ofZ (Qnum q).
Proof.
  destruct q as [n d]. cbn [Qden Qnum]. intros -> Hn. unfold round64. cbn [Qnum Qden].
  destruct n as [|p|p].
  - reflexivity.
  - apply roundPos_int. lia.
  - rewrite roundPos_int by lia. unfold ofZ, neg. f_equal.
    exact (inject_Z_Qred (Z.neg p)).
Qed.

Lemma round64_int z : Z.abs z <= 2 ^ 53 -> round64 (inject_Z z) = ofZ z.
Proof. intros H. now apply (round64_den1 (inject_Z z)). Qed.

Lemma add_int a b : Z.abs (a + b) <= 2 ^ 53 -> add (ofZ a) (ofZ b) = ofZ (a + b).
Proof.
  intros H. unfold add, ofZ.
  rewrite round64_den1; cbn [Qplus inject_Z Qnum Qden]; rewrite ?Z.mul_1_r; auto.
Qed.




Lemma ltb_int a b : ltb (ofZ a) (ofZ b) = (a <? b).
Proof.
  unfold ltb, ofZ, Qcompare, inject_Z. cbn [Qnum Qden]. rewrite !Z.mul_1_r.
  unfold Z.ltb. reflexivity.
Qed.


Lemma toString_int n : 0 <= n <= 2 ^ 53 -> toString (ofZ n) = decimal n.
Proof.
  intros [H0 H1]. unfold toString, ofZ, inject_Z. cbn [Qnum].
  destruct n as [|p|p]; [reflexivity| |lia].
  unfold toStringPos, isSafeInteger. cbn [Qnum Qden Pos.eqb andb].
  destruct (Z.leb_spec (Z.abs (Z.pos p)) (2 ^ 53)) as [_|Hgt]; [reflexivity|].
  rewrite Z.abs_eq in Hgt; lia.
Qed.

Lemma ltb_irrefl a : ltb a a = false.
Proof.
  destruct a as [|s|q]; simpl; [reflexivity|now destruct s|].
  assert ((q ?= q)%Q = Eq) as -> by (apply Qeq_alt; reflexivity). reflexivity.
Qed.

Lemma ltb_Fin x y : ltb (Fin x) (Fin y) = true <-> (x < y)%Q.
Proof.
  simpl. rewrite Qlt_alt. destruct (x ?= y)%Q; split; congruence.
Qed.

Lemma ltb_trans a b c : ltb a b = true -> ltb b c = true -> ltb a c = true.
Proof.
  destruct a as [|s|x], b as [|t|y], c as [|u|z]; simpl; try congruence;
    try (destruct s; simpl; congruence);
    try (destruct t; simpl; congruence);
    try (destruct u; simpl; congruence);
    try (destruct s, t; simpl; congruence);
    try (destruct t, u; simpl; congruence);
    try (destruct s, t, u; simpl; congruence).
  intros H1 H2. apply ltb_Fin in H1, H2. apply ltb_Fin. eapply Qlt_trans; eauto.
Qed.

Lemma ltb_notNaN_r a b : ltb a b = true -> isNaN b = false.
Proof. destruct a as [|s|x], b as [|t|y]; simpl; congruence. Qed.

(** [floorLog2] brackets the rational between two powers of two. *)
Lemma floorLog2_spec num den :
  let L := floorLog2 num den in
  scale (Zpos den) L <= scale (Zpos num) (- L)
  /\ scale (Zpos num) (- (L + 1)) < scale (Zpos den) (L + 1).
Proof.
  unfold floorLog2.
  destruct (Z.log2_spec (Zpos num)) as [Hn1 Hn2]; [lia|].
  destruct (Z.log2_spec (Zpos den)) as [Hd1 Hd2]; [lia|].
  pose proof (Z.log2_nonneg (Zpos num)) as Hn0.
  pose proof (Z.log2_nonneg (Zpos den)) as Hd0.
  set (ln := Z.log2 (Zpos num)) in *. set (ld := Z.log2 (Zpos den)) in *.
  rewrite <- Z.add_1_r in Hn2, Hd2.
  destruct (Z.leb_spec (scale (Zpos den) (ln - ld)) (scale (Zpos num) (- (ln - ld))))
    as [T|T]; cbv zeta.
  - split; [exact T|].
    destruct (Z_le_gt_dec 0 (ln - ld + 1)) as [P|P].
    + rewrite scale_nonpos, scale_nonneg by lia.
      assert (2 ^ (ln + 1) = 2 ^ ld * 2 ^ (ln - ld + 1)) as E
        by (rewrite <- Z.pow_add_r by lia; f_equal; lia).
      assert (0 < 2 ^ (ln - ld + 1)) by (apply Z.pow_pos_nonneg; lia). nia.
    + rewrite scale_nonneg, scale_nonpos by lia.
      assert (2 ^ ld = 2 ^ (ln + 1) * 2 ^ (- (ln - ld + 1))) as E
        by (rewrite <- Z.pow_add_r by lia; f_equal; lia).
      assert (0 < 2 ^ (- (ln - ld + 1))) by (apply Z.pow_pos_nonneg; lia). nia.
  - replace (ln - ld - 1 + 1) with (ln - ld) by lia. split; [|exact T].
    destruct (Z_le_gt_dec 0 (ln - ld - 1)) as [P|P].
    + rewrite scale_nonneg, scale_nonpos by lia.
      assert (2 ^ ln = 2 ^ (ld + 1) * 2 ^ (ln - ld - 1)) as E
        by (rewrite <- Z.pow_add_r by lia; f_equal; lia).
      assert (0 < 2 ^ (ln - ld - 1)) by (apply Z.pow_pos_nonneg; lia). nia.
    + rewrite scale_nonpos, scale_nonneg by lia.
      assert (2 ^ (ld + 1) = 2 ^ ln * 2 ^ (- (ln - ld - 1))) as E
        by (rewrite <- Z.pow_add_r by lia; f_equal; lia).
      assert (0 < 2 ^ (- (ln - ld - 1))) by (apply Z.pow_pos_nonneg; lia). nia.
Qed.

(** Adding one to a value below [2 ^ 53] gives a strictly greater value,
    rounding included. *)
Lemma roundPos_above num den xn :
  0 <= xn -> Zpos num = xn + Zpos den -> xn < 2 ^ 53 * Zpos den ->
  exists v, roundPos num den = Fin v /\ (xn # den < v)%Q.
Proof.
  intros H0 Hnum Hx.
  destruct (floorLog2_spec num den) as [Lo Hi]. unfold roundPos.
  set (L := floorLog2 num den) in *.
  assert (0 <= L) as HL0.
  { destruct (Z_le_gt_dec 0 L) as [|Hneg]; [assumption|exfalso].
    rewrite (scale_nonneg _ (- (L + 1))), (scale_nonpos _ (L + 1)) in Hi by lia.
    assert (0 < 2 ^ (- (L + 1))) by (apply Z.pow_pos_nonneg; lia). nia. }
  assert (L <= 53) as HL53.
  { destruct (Z_le_gt_dec L 53) as [|Hbig]; [assumption|exfalso].
    rewrite (scale_nonneg _ L), (scale_nonpos _ (- L)) in Lo by lia.
    assert (2 ^ 54 <= 2 ^ L) by (apply Z.pow_le_mono_r; lia). nia. }
  rewrite Z.max_l by lia.
  destruct (Z_le_gt_dec L 52) as [Hsmall|Hbig].
  - (* the last place kept is a unit or a fraction of one *)
    rewrite (scale_nonneg _ (- (L - 52))), (scale_nonpos _ (L - 52)) by lia.
    set (k := - (L - 52)) in *.
    assert (0 < 2 ^ k) as Hk by (apply Z.pow_pos_nonneg; lia).
    set (a := Zpos num * 2 ^ k) in *.
    pose proof (Z.div_mod a (Zpos den) ltac:(lia)) as Hdm.
    pose proof (Z.mod_pos_bound a (Zpos den) ltac:(lia)) as Hr.
    set (n := a / Zpos den) in *. set (r := a mod Zpos den) in *.
    set (n' := match 2 * r ?= Zpos den with
               | Eq => if Z.even n then n else n + 1
               | Lt => n
               | Gt => n + 1
               end).
    assert (n <= n' <= n + 1) as Hn'
      by (subst n'; destruct (2 * r ?= Zpos den); [destruct (Z.even n)| |]; lia).
    assert (xn * 2 ^ k < n' * Zpos den) as Key.
    { assert (a = xn * 2 ^ k + Zpos den * 2 ^ k) as Ea by (subst a; rewrite Hnum; ring).
      assert (Zpos den * 1 <= Zpos den * 2 ^ k)
        by (apply Z.mul_le_mono_nonneg_l; lia).
      assert (n * Zpos den <= n' * Zpos den)
        by (apply Z.mul_le_mono_nonneg_r; lia).
      lia. }
    destruct (Z.ltb_spec (L - 52) 0) as [Hneg|Hzero].
    + eexists. split; [reflexivity|]. rewrite Qred_correct.
      unfold Qlt. cbn [Qnum Qden]. rewrite Z2Pos.id by lia. exact Key.
    + assert (k = 0) as Ek by lia.
      assert (a = Zpos num) as Ea
        by (subst a; rewrite Ek; change (2 ^ 0) with 1; lia).
      rewrite Ek in Key. change (2 ^ 0) with 1 in Key.
      replace (L - 52) with 0 by lia. change (2 ^ 0) with 1.
      destruct (Z.leb_spec (2 ^ 1024) (n' * 1)) as [Hover|_].
      * exfalso. assert (2 ^ 54 < 2 ^ 1024) by (apply Z.pow_lt_mono_r; lia).
        assert (n < 2 ^ 53 + 1)
          by (subst n; rewrite Ea; apply Z.div_lt_upper_bound; lia).
        lia.
      * eexists. split; [reflexivity|].
        unfold Qlt, inject_Z. cbn [Qnum Qden]. lia.
  - (* the value reaches [2 ^ 53]: the last place kept is two units *)
    assert (L = 53) as EL by lia. rewrite EL in *.
    change (53 - 52) with 1. change (- (1)) with (-1).
    rewrite (scale_nonpos _ (-1)), (scale_nonneg _ 1) by lia.
    rewrite (scale_nonneg _ 53), (scale_nonpos _ (- 53)) in Lo by lia.
    change (2 ^ 1) with 2.
    pose proof (Z.div_mod (Zpos num) (Zpos den * 2) ltac:(lia)) as Hdm.
    pose proof (Z.mod_pos_bound (Zpos num) (Zpos den * 2) ltac:(lia)) as Hr.
    set (n := Zpos num / (Zpos den * 2)) in *.
    set (r := Zpos num mod (Zpos den * 2)) in *.
    assert (n = 2 ^ 52) as En.
    { assert (2 ^ 53 = 2 * 2 ^ 52) as E53 by reflexivity. nia. }
    assert (2 * r < Zpos den * 2) as Hlt.
    { assert (2 ^ 53 = 2 * 2 ^ 52) as E53 by reflexivity. nia. }
    apply Z.compare_lt_iff in Hlt. rewrite Hlt. rewrite En.
    change (1 <? 0) with false. cbv iota.
    change (2 ^ 1024 <=? 2 ^ 52 * 2) with false. cbv iota.
    eexists. split; [reflexivity|].
    unfold Qlt, inject_Z. cbn [Qnum Qden]. change (2 ^ 52 * 2) with (2 ^ 53). lia.
Qed.

Lemma add_one_above x :
  (0 <= x)%Q -> (x < inject_Z (2 ^ 53))%Q ->
  ltb (Fin x) (add (Fin x) (ofZ 1)) = true.
Proof.
  destruct x as [xn xd]. unfold Qle, Qlt, inject_Z. cbn [Qnum Qden]. intros H0 Hx.
  unfold add, ofZ, round64, Qplus, inject_Z. cbn [Qnum Qden].
  rewrite Pos.mul_1_r.
  destruct (xn * 1 + 1 * Zpos xd) as [|num|num] eqn:E; try lia.
  destruct (roundPos_above num xd xn) as (v & -> & Hv); try lia.
  unfold ltb, Qcompare. unfold Qlt in Hv. apply Z.compare_lt_iff in Hv.
  now rewrite Hv.
Qed.

End NumberFacts.

(** ** Numerals read back *)

Section Numerals.

Lemma isDigit_range c : isDigit c = true -> (48 <= c <= 57)%N.
Proof.
  unfold isDigit. intros H. apply andb_true_iff in H as [H1 H2].
  apply N.leb_le in H1, H2. lia.
Qed.

Lemma hexDigit_digit c : isDigit c = true -> hexDigit c = Some (Z.of_N c - 48).
Proof. unfold hexDigit. now intros ->. Qed.

Lemma digit_not_space c : isDigit c = true -> isWhiteSpace c = false.
Proof.
  intros H. apply isDigit_range in H. unfold isWhiteSpace. cbn [existsb].
  repeat (apply orb_false_iff; split); try (apply N.eqb_neq; lia); try reflexivity.
  apply andb_false_iff. left. apply N.leb_gt. lia.
Qed.

Lemma trimStart_digits s : allDigits s -> trimStart s = s.
Proof.
  intros H. destruct H as [|c s Hc Hs]; [reflexivity|].
  cbn. now rewrite digit_not_space.
Qed.

Lemma trim_digits s : allDigits s -> trim s = s.
Proof.
  intros H. unfold trim, trimEnd. rewrite (trimStart_digits s H).
  rewrite trimStart_digits; [apply rev_involutive|].
  unfold allDigits. apply List.Forall_rev. exact H.
Qed.

Lemma span_digits s : allDigits s -> span isDigit s = (s, []).
Proof.
  induction 1 as [|c s Hc Hs IH]; [reflexivity|].
  cbn. now rewrite Hc, IH.
Qed.

Lemma parseNonDecimal_digits s : allDigits s -> parseNonDecimal s = None.
Proof.
  intros H. destruct H as [|c0 s H0 Hs]; [reflexivity|].
  destruct Hs as [|c1 s H1 Hs]; [reflexivity|].
  apply isDigit_range in H1. unfold parseNonDecimal.
  destruct (c0 =? 48)%N; [|reflexivity].
  repeat match goal with
         | |- context [(c1 =? ?k)%N] =>
             rewrite (proj2 (N.eqb_neq c1 k)) by lia
         end.
  reflexivity.
Qed.

Lemma parseSign_digits s : allDigits s -> parseSign s = (false, s).
Proof.
  intros H. destruct H as [|c s Hc Hs]; [reflexivity|].
  apply isDigit_range in Hc. unfold parseSign.
  now rewrite !(proj2 (N.eqb_neq c _)) by lia.
Qed.

Lemma digits_not_Infinity s : allDigits s -> JsString.eqb s (lit "Infinity") = false.
Proof.
  intros H. unfold JsString.eqb. apply bool_decide_eq_false. intros ->.
  apply Forall_inv in H. discriminate.
Qed.

(** [Number] reads a non-empty run of decimal digits as the integer it
    writes, when that integer is a binary64 value. *)
Lemma Number_digits s v :
  s <> [] -> allDigits s -> digitsIn 10 0 s = Some v -> Z.abs v <= 2 ^ 53 ->
  Number s = ofZ v.
Proof.
  intros Hne Hd Hv Hb. unfold Number. rewrite (trim_digits s Hd).
  destruct s as [|c s]; [congruence|]. cbn [isEmpty].
  rewrite parseNonDecimal_digits, parseSign_digits, digits_not_Infinity by exact Hd.
  unfold parseUnsignedDecimal. rewrite span_digits by exact Hd.
  cbn [isEmpty negb orb]. rewrite app_nil_r, Hv. cbn [parseExponent length].
  change (Qpower 10 (0 - Z.of_nat 0)) with (1 # 1).
  rewrite round64_den1; cbn [Qmult inject_Z Qnum Qden]; rewrite ?Z.mul_1_r; auto.
Qed.

Lemma uintUnits_digits d : allDigits (uintUnits d).
Proof. induction d; cbn; constructor; auto. Qed.

Lemma digitsIn_uint_acc d : forall acc,
  digitsIn 10 (Zpos acc) (uintUnits d) = Some (Zpos (Pos.of_uint_acc d acc)).
Proof.
  induction d; intros acc; cbn [uintUnits digitsIn Pos.of_uint_acc];
    [reflexivity|..];
    rewrite hexDigit_digit by reflexivity;
    cbn [Z.of_N Z.sub Z.opp Z.add Z.pos_sub Z.ltb Z.compare Pos.compare
         Pos.compare_cont Z.succ_double Z.pred_double Z.double];
    rewrite <- IHd; f_equal; lia.
Qed.

Lemma digitsIn_uint d :
  digitsIn 10 0 (uintUnits d) = Some (Z.of_N (Pos.of_uint d)).
Proof.
  induction d; cbn [uintUnits digitsIn Pos.of_uint];
    [reflexivity|..];
    rewrite hexDigit_digit by reflexivity;
    cbn [Z.of_N Z.sub Z.opp Z.add Z.pos_sub Z.ltb Z.compare Pos.compare
         Pos.compare_cont Z.succ_double Z.pred_double Z.double Z.mul];
    [exact IHd | apply digitsIn_uint_acc ..].
Qed.

Lemma digitsIn_decimal n : 0 <= n -> digitsIn 10 0 (decimal n) = Some n.
Proof.
  intros H. unfold decimal. rewrite digitsIn_uint.
  change (Pos.of_uint (N.to_uint (Z.to_N n))) with (N.of_uint (N.to_uint (Z.to_N n))).
  rewrite DecimalN.Unsigned.of_to. f_equal. lia.
Qed.

Lemma digitsIn_zeros k s : digitsIn 10 0 (replicate k 48%N ++ s) = digitsIn 10 0 s.
Proof. induction k as [|k IH]; [reflexivity|]. cbn. exact IH. Qed.

Lemma padded_nonempty s : padStart 3 48 s <> [].
Proof.
  unfold padStart. intros H. apply app_eq_nil in H as [H1 ->]. discriminate.
Qed.

Lemma padded_digits s : allDigits s -> allDigits (padStart 3 48 s).
Proof.
  intros H. unfold padStart, allDigits. apply Forall_app. split; [|exact H].
  apply Forall_forall. intros c Hc. apply elem_of_replicate in Hc as [-> _]. reflexivity.
Qed.

(** The zero-padded numeral of an id reads back as its number. *)
Lemma Number_padded n :
  0 <= n <= 2 ^ 53 -> Number (padStart 3 48 (decimal n)) = ofZ n.
Proof.
  intros [H0 H1]. apply Number_digits.
  - apply padded_nonempty.
  - apply padded_digits, uintUnits_digits.
  - unfold padStart. rewrite digitsIn_zeros. now apply digitsIn_decimal.
  - lia.
Qed.

End Numerals.

(** ** The next employee id *)

Section NextEmployeeId.

Lemma fold_isMax L : forall pre m,
  isMaxSuffix pre m -> isMaxSuffix (pre ++ L) (fold_left keepLarger L m).
Proof.
  induction L as [|e L IH]; intros pre m I.
  - now rewrite app_nil_r.
  - cbn [fold_left]. replace (pre ++ e :: L) with ((pre ++ [e]) ++ L)
      by now rewrite <- app_assoc.
    apply IH. destruct I as (Hn & H0 & Hin & Hmax). unfold keepLarger, gtb.
    destruct (ltb m (suffixNumber e)) eqn:G.
    + repeat split.
      * now apply ltb_notNaN_r in G.
      * destruct (ltb (suffixNumber e) zero) eqn:N; [|reflexivity].
        rewrite (ltb_trans _ _ _ G N) in H0. discriminate.
      * right. exists e. split; [apply in_or_app; right; now left | reflexivity].
      * intros x Hx. unfold gtb.
        apply in_app_or in Hx as [Hx|[<-|[]]]; [|apply ltb_irrefl].
        specialize (Hmax x Hx). unfold gtb in Hmax.
        destruct (ltb (suffixNumber e) (suffixNumber x)) eqn:N; [|reflexivity].
        rewrite (ltb_trans _ _ _ G N) in Hmax. discriminate.
    + repeat split; auto.
      * destruct Hin as [->|(x & Hx & E)]; [now left|].
        right. exists x. split; [apply in_or_app; now left | exact E].
      * intros x Hx. apply in_app_or in Hx as [Hx|[<-|[]]]; [now apply Hmax | exact G].
Qed.

Lemma maxNumber_isMax L : isMaxSuffix L (maxNumber L).
Proof.
  apply (fold_isMax L [] zero). repeat split; auto. intros e [].
Qed.

Lemma keepLarger_plain m e :
  (suffixNumber e = NaN \/ exists z, suffixNumber e = ofZ z /\ z < 2 ^ 53) ->
  0 <= m < 2 ^ 53 ->
  keepLarger (ofZ m) e = ofZ (Z.max m (suffixZ e)) /\ 0 <= Z.max m (suffixZ e) < 2 ^ 53.
Proof.
  intros [E|(z & E & Hz)] Hm; unfold keepLarger, suffixZ, gtb; rewrite E.
  - cbn [ltb ofZ]. rewrite Z.max_l by lia. split; [reflexivity | lia].
  - rewrite ltb_int.
    change (match ofZ z with Fin q => Qfloor q | _ => 0 end) with (Qfloor (inject_Z z)).
    rewrite Qfloor_Z.
    destruct (Z.ltb_spec m z); [rewrite Z.max_r by lia | rewrite Z.max_l by lia];
      (split; [reflexivity | lia]).
Qed.

Lemma fold_plain L : forall m,
  plainSuffixes L -> 0 <= m < 2 ^ 53 ->
  fold_left keepLarger L (ofZ m) = ofZ (Z.max m (maxSuffixZ L))
  /\ 0 <= Z.max m (maxSuffixZ L) < 2 ^ 53.
Proof.
  induction L as [|e L IH]; intros m P Hm.
  - cbn. rewrite Z.max_l by lia. split; [reflexivity | lia].
  - apply Forall_cons_1 in P as [Pe P]. cbn [fold_left].
    destruct (keepLarger_plain m e Pe Hm) as [-> Hm'].
    destruct (IH _ P Hm') as [-> B].
    unfold maxSuffixZ in *. cbn [map fold_right].
    rewrite Z.max_assoc. now split.
Qed.

Lemma maxNumber_plain L :
  plainSuffixes L ->
  maxNumber L = ofZ (maxSuffixZ L) /\ 0 <= maxSuffixZ L < 2 ^ 53.
Proof.
  intros P. destruct (fold_plain L 0 P ltac:(lia)) as [E B].
  assert (0 <= maxSuffixZ L) as H0.
  { unfold maxSuffixZ. clear. induction L; simpl; lia. }
  rewrite Z.max_r in E, B by lia. split; [exact E | lia].
Qed.

(** Below or equal, then strictly below: strictly below. *)
Lemma ltb_le_trans s m t :
  isNaN s = false -> ltb m s = false -> ltb m t = true -> ltb s t = true.
Proof.
  destruct s as [|a|x], m as [|b|y], t as [|c|z]; simpl; try congruence;
    try (destruct a; simpl; congruence);
    try (destruct b; simpl; congruence);
    try (destruct c; simpl; congruence);
    try (destruct a, b; simpl; congruence);
    try (destruct a, c; simpl; congruence);
    try (destruct b, c; simpl; congruence);
    try (destruct a, b, c; simpl; congruence).
  intros _ H1 H2.
  change (ltb (Fin y) (Fin x) = false) in H1.
  change (ltb (Fin y) (Fin z) = true) in H2.
  change (ltb (Fin x) (Fin z) = true).
  apply ltb_Fin in H2. apply ltb_Fin.
  destruct (Qlt_le_dec y x) as [Hlt|Hle].
  - apply ltb_Fin in Hlt. congruence.
  - eapply Qle_lt_trans; eauto.
Qed.

Lemma not_ltb_Fin x y : ltb (Fin x) (Fin y) = false -> (y <= x)%Q.
Proof.
  intros H. destruct (Qlt_le_dec x y) as [Hlt|Hle]; [|exact Hle].
  apply ltb_Fin in Hlt. congruence.
Qed.

Lemma maxSuffixZ_ge L e : In e L -> suffixZ e <= maxSuffixZ L.
Proof.
  unfold maxSuffixZ. induction L as [|x L IH]; intros H; [destruct H|].
  cbn [map fold_right]. destruct H as [->|H]; [lia|]. specialize (IH H). lia.
Qed.

(** At [2 ^ 53] the next number is the number itself: [2 ^ 53 + 1] is not a
    binary64 value and rounds back.  The generated id is the id already in
    the list, and its suffix exceeds nothing. *)
Lemma next_id_repeats_at_2_53 :
  getNextEmployeeId [employeeWithId "E9007199254740992"] = lit "E9007199254740992"
  /\ ltb (suffixNumber (employeeWithId "E9007199254740992"))
         (Number (substring1 (getNextEmployeeId [employeeWithId "E9007199254740992"])))
     = false.
Proof. split; now vm_compute. Qed.

(** The same at infinity, which [Number] reads and [String] writes. *)
Lemma next_id_repeats_at_infinity :
  getNextEmployeeId [employeeWithId "EInfinity"] = lit "EInfinity".
Proof. now vm_compute. Qed.

(** C3, amended.  For every list [L] of employees, [getNextEmployeeId(L)]
    is "E" followed by [String(m + 1)] padded with zeros to three units,
    where [m] is the greatest of [0] and the numeric suffixes of [L], the
    suffix of an id being [Number] of what follows its first unit; a suffix
    that is not numeric counts for nothing, and nothing throws.  On the
    empty list the result is "E001".  Whenever [m] is below [2 ^ 53], the
    number [m + 1] the id is written from strictly exceeds every numeric
    suffix of [L].  And when every suffix of [L] is an integer below
    [2 ^ 53] or is not numeric, the id is "E" and the decimal numeral of
    [1 + max], zero-padded to three digits, its own numeric suffix is
    [1 + max], and that strictly exceeds every numeric suffix of [L]. *)
Theorem getNextEmployeeId_exceeds_suffixes :
  (forall L,
      exists m,
        isMaxSuffix L m
        /\ getNextEmployeeId L = lit "E" ++ padStart 3 48 (toString (add m (ofZ 1)))
        /\ (ltb m (ofZ (2 ^ 53)) = true ->
            forall e, In e L -> isNaN (suffixNumber e) = false ->
                      ltb (suffixNumber e) (add m (ofZ 1)) = true))
  /\ getNextEmployeeId [] = lit "E001"
  /\ (forall L,
        plainSuffixes L ->
        let n := 1 + maxSuffixZ L in
        getNextEmployeeId L = lit "E" ++ padStart 3 48 (decimal n)
        /\ Number (substring1 (getNextEmployeeId L)) = ofZ n
        /\ forall e z, In e L -> suffixNumber e = ofZ z -> z < n).
Proof.
  split; [|split].
  - intros L. exists (maxNumber L).
    destruct (maxNumber_isMax L) as (Hnan & H0 & Hin & Hmax).
    split; [now repeat split|]. split; [reflexivity|].
    intros Hb e He Hn. specialize (Hmax e He). unfold gtb in Hmax.
    apply (ltb_le_trans _ (maxNumber L)); [exact Hn | exact Hmax |].
    destruct (maxNumber L) as [|s|x]; [discriminate | now destruct s |].
    apply add_one_above; [now apply not_ltb_Fin in H0 | now apply ltb_Fin in Hb].
  - now vm_compute.
  - intros L P n. destruct (maxNumber_plain L P) as [E B].
    assert (getNextEmployeeId L = lit "E" ++ padStart 3 48 (decimal n)) as Hid.
    { unfold getNextEmployeeId. rewrite E, add_int by lia.
      rewrite toString_int by lia. subst n. do 3 f_equal. lia. }
    split; [exact Hid|]. split.
    + rewrite Hid. change (substring1 (lit "E" ++ ?s)) with s.
      apply Number_padded. lia.
    + intros e z He Ez. pose proof (maxSuffixZ_ge L e He) as Hge.
      unfold suffixZ in Hge. rewrite Ez in Hge.
      change (match ofZ z with Fin q => Qfloor q | _ => 0 end)
        with (Qfloor (inject_Z z)) in Hge.
      rewrite Qfloor_Z in Hge. lia.
Qed.

(** The theorem at [sampleStaff]: after E001, E007 and Exyz comes E008. *)
Lemma getNextEmployeeId_sampleStaff :
  plainSuffixes sampleStaff /\ getNextEmployeeId sampleStaff = lit "E008".
Proof.
  assert (plainSuffixes sampleStaff) as P.
  { unfold plainSuffixes, sampleStaff.
    constructor; [right; exists 1; split; [now vm_compute | reflexivity]|].
    constructor; [right; exists 7; split; [now vm_compute | reflexivity]|].
    constructor; [left; now vm_compute | constructor]. }
  split; [exact P|].
  destruct (proj2 (proj2 getNextEmployeeId_exceeds_suffixes) sampleStaff P) as [H _].
  rewrite H. now vm_compute.
Defined.

End NextEmployeeId.

(** ** Shift duration *)

Section ShiftDuration.






End ShiftDuration.
